(** * GoalLine analytics: league tables, scorer leaderboards, streaks, head-to-head

    A shallow embedding of [goalline_api/app/routes/analytics.py] and the
    properties of its four request handlers and their helpers
    ([parse_score], [result_symbol], [longest_streak], [serialize_match]).

    Python values are modelled by an inductive type of document values,
    exceptions by an explicit result type, [defaultdict] by a finite map
    together with its insertion order, and the MongoDB collections by the
    lists of documents they hold plus a log of the queries issued. *)

From Stdlib Require Import ZArith Lia Ascii String.
From Stdlib Require Import Floats.SpecFloat.
From Stdlib Require Import Sorting.Sorted.
From stdpp Require Import gmap strings list fin_maps.

Local Set Warnings "-register-all".
Local Open Scope string_scope.
Local Open Scope list_scope.
Local Open Scope Z_scope.

(** ** Python values and exceptions *)

(** The values a document field can hold once pymongo has decoded it.
    [VFloat] carries the IEEE-754 description of a double, [VDate] the
    milliseconds since the epoch of a BSON date. *)
Inductive value : Type :=
| VNone
| VBool (b : bool)
| VInt (n : Z)
| VFloat (f : spec_float)
| VStr (s : string)
| VDate (ms : Z)
| VList (l : list value)
| VDict (d : list (string * value)).

Inductive exn : Type :=
| ValueError
| TypeError
| OverflowError
| AttributeError.

(** A computation either returns or raises. *)
Inductive result (A : Type) : Type :=
| Ret (a : A)
| Raise (e : exn).
Arguments Ret {A} a.
Arguments Raise {A} e.

#[global] Instance result_ret : MRet result := fun _ a => Ret a.
#[global] Instance result_fmap : FMap result := fun _ _ f m =>
  match m with
  | Ret a => Ret (f a)
  | Raise e => Raise e
  end.
#[global] Instance result_bind : MBind result := fun _ _ k m =>
  match m with
  | Ret a => k a
  | Raise e => Raise e
  end.

(** [try: body / except (ValueError, AttributeError): return handler] *)
Definition try_except {A : Type} (body : result A) (handler : A) : result A :=
  match body with
  | Ret a => Ret a
  | Raise ValueError | Raise AttributeError => Ret handler
  | Raise e => Raise e
  end.

Definition returns {A : Type} (m : result A) : Prop := exists a, m = Ret a.

(** ** Dictionaries read from documents *)

(** [d.get(key)] on a document: the value bound to [key], if any. *)
Fixpoint dict_lookup (d : list (string * value)) (key : string) : option value :=
  match d with
  | [] => None
  | (k, v) :: d' => if String.eqb k key then Some v else dict_lookup d' key
  end.

(** [d.get(key, dflt)] *)
Definition dict_get (d : list (string * value)) (key : string) (dflt : value) : value :=
  match dict_lookup d key with
  | Some v => v
  | None => dflt
  end.

(** ** Truthiness, [or], [int()] and [str.split] *)

Definition truthy (v : value) : bool :=
  match v with
  | VNone => false
  | VBool b => b
  | VInt n => negb (n =? 0)
  | VFloat (S754_zero _) => false
  | VFloat _ => true
  | VStr s => negb (String.eqb s "")
  | VDate _ => true
  | VList l => match l with [] => false | _ => true end
  | VDict d => match d with [] => false | _ => true end
  end.

(** [a or b] *)
Definition py_or (a b : value) : value := if truthy a then a else b.

(** A string is held as the bytes of its UTF-8 encoding.  [code_points]
    reads the characters back; bytes that are no well-formed sequence
    stand for no Python string and are read as U+FFFD. *)
Definition byte_val (c : ascii) : Z := Z.of_nat (nat_of_ascii c).

Definition continuation (c : ascii) : option Z :=
  let n := byte_val c in
  if (128 <=? n) && (n <? 192) then Some (n - 128) else None.

Definition REPLACEMENT : Z := 65533.

Fixpoint code_points (s : list ascii) : list Z :=
  match s with
  | [] => []
  | b0 :: r =>
      let n0 := byte_val b0 in
      if n0 <? 128 then n0 :: code_points r
      else if (194 <=? n0) && (n0 <? 224) then
        match r with
        | b1 :: r1 =>
            match continuation b1 with
            | Some n1 => ((n0 - 192) * 64 + n1) :: code_points r1
            | None => REPLACEMENT :: code_points r
            end
        | [] => [REPLACEMENT]
        end
      else if (224 <=? n0) && (n0 <? 240) then
        match r with
        | b1 :: b2 :: r2 =>
            match continuation b1, continuation b2 with
            | Some n1, Some n2 =>
                let ch := ((n0 - 224) * 64 + n1) * 64 + n2 in
                if (2048 <=? ch) && negb ((55296 <=? ch) && (ch <? 57344))
                then ch :: code_points r2
                else REPLACEMENT :: code_points r
            | _, _ => REPLACEMENT :: code_points r
            end
        | _ => REPLACEMENT :: code_points r
        end
      else if (240 <=? n0) && (n0 <? 245) then
        match r with
        | b1 :: b2 :: b3 :: r3 =>
            match continuation b1, continuation b2, continuation b3 with
            | Some n1, Some n2, Some n3 =>
                let ch := (((n0 - 240) * 64 + n1) * 64 + n2) * 64 + n3 in
                if (65536 <=? ch) && (ch <? 1114112)
                then ch :: code_points r3
                else REPLACEMENT :: code_points r
            | _, _, _ => REPLACEMENT :: code_points r
            end
        | _ => REPLACEMENT :: code_points r
        end
      else REPLACEMENT :: code_points r
  end.

(** The characters from U+007F on that [str.isspace] accepts. *)
Definition unicode_spaces : list Z :=
  [133; 160; 5760; 8192; 8193; 8194; 8195; 8196; 8197; 8198; 8199; 8200; 8201; 8202;
   8232; 8233; 8239; 8287; 12288].

(** The digit zero of every script with decimal digits (Unicode 14.0, the
    table of CPython 3.11); the digits one to nine follow their zero. *)
Definition decimal_zeros : list Z :=
  [1632; 1776; 1984; 2406; 2534; 2662; 2790; 2918; 3046; 3174; 3302; 3430; 3558; 3664;
   3792; 3872; 4160; 4240; 6112; 6160; 6470; 6608; 6784; 6800; 6992; 7088; 7232; 7248;
   42528; 43216; 43264; 43472; 43504; 43600; 44016; 65296; 66720; 68912; 69734; 69872;
   69942; 70096; 70384; 70736; 70864; 71248; 71360; 71472; 71904; 72016; 72784; 73040;
   73120; 92768; 92864; 93008; 120782; 120792; 120802; 120812; 120822; 123200; 123632;
   125264; 130032].

Definition unicode_space (ch : Z) : bool := existsb (Z.eqb ch) unicode_spaces.

Definition unicode_decimal (ch : Z) : option Z :=
  match List.find (fun zero => (zero <=? ch) && (ch <? zero + 10)) decimal_zeros with
  | Some zero => Some (ch - zero)
  | None => None
  end.

Definition ascii_of_code (n : Z) : ascii := ascii_of_nat (Z.to_nat n).

(** What [int] does to a string before it reads it: characters below
    U+007F are kept, the other spaces become a blank and the other
    decimal digits their ASCII digit; the first character that is
    neither becomes "?" and ends the string. *)
Fixpoint decimal_and_space_to_ascii (chars : list Z) : list ascii :=
  match chars with
  | [] => []
  | ch :: r =>
      if ch <? 127 then ascii_of_code ch :: decimal_and_space_to_ascii r
      else if unicode_space ch then " "%char :: decimal_and_space_to_ascii r
      else match unicode_decimal ch with
           | Some d => ascii_of_code (48 + d) :: decimal_and_space_to_ascii r
           | None => ["?"%char]
           end
  end.

Definition is_space (c : ascii) : bool :=
  let n := Z.of_nat (nat_of_ascii c) in
  ((9 <=? n) && (n <=? 13)) || (n =? 32).

Definition digit_val (c : ascii) : option Z :=
  let n := Z.of_nat (nat_of_ascii c) in
  if (48 <=? n) && (n <=? 57) then Some (n - 48) else None.

Fixpoint skip_space (s : list ascii) : list ascii :=
  match s with
  | c :: r => if is_space c then skip_space r else s
  | [] => []
  end.

(** The digit scan of [int(str)] in base ten: digits with single
    underscores between them.  Returns the value read, the number of
    digits and the unread rest, or [None] on a doubled or trailing
    underscore. *)
Fixpoint scan_digits (s : list ascii) (prev_underscore : bool) (acc : Z) (ndigits : nat)
  : option (Z * nat * list ascii) :=
  match s with
  | c :: r =>
      match digit_val c with
      | Some d => scan_digits r false (10 * acc + d) (S ndigits)
      | None =>
          if Ascii.eqb c "_"
          then (if prev_underscore then None else scan_digits r true acc ndigits)
          else (if prev_underscore then None else Some (acc, ndigits, s))
      end
  | [] => if prev_underscore then None else Some (acc, ndigits, [])
  end.

(** The interpreter's default limit on the digits of a decimal literal
    converted by [int]. *)
Definition int_max_str_digits : nat := 4300.

(** [int(s)] for a string [s]; [None] stands for [ValueError]. *)
Definition int_of_str (s : string) : option Z :=
  let s1 := skip_space (decimal_and_space_to_ascii (code_points (list_ascii_of_string s))) in
  let '(sign, s2) :=
    match s1 with
    | c :: r => if Ascii.eqb c "+" then (1, r)
                else if Ascii.eqb c "-" then (-1, r) else (1, s1)
    | [] => (1, s1)
    end in
  match s2 with
  | c :: _ => if Ascii.eqb c "_" then None else
      match scan_digits s2 false 0 0 with
      | Some (v, nd, rest) =>
          if (nd =? 0)%nat then None
          else if (int_max_str_digits <? nd)%nat then None
          else match skip_space rest with
               | [] => Some (sign * v)
               | _ => None
               end
      | None => None
      end
  | [] => None
  end.

(** [int(f)] for a float: truncation towards zero. *)
Definition int_of_float (f : spec_float) : result Z :=
  match f with
  | S754_zero _ => Ret 0
  | S754_infinity _ => Raise OverflowError
  | S754_nan => Raise ValueError
  | S754_finite s m e =>
      let mag := Z.shiftl (Z.pos m) e in
      Ret (if s then - mag else mag)
  end.

(** [int(v)] *)
Definition py_int (v : value) : result Z :=
  match v with
  | VBool b => Ret (if b then 1 else 0)
  | VInt n => Ret n
  | VFloat f => int_of_float f
  | VStr s => match int_of_str s with Some n => Ret n | None => Raise ValueError end
  | VNone | VDate _ | VList _ | VDict _ => Raise TypeError
  end.

(** [s.split(sep)] for a one-character separator. *)
Fixpoint py_split (sep : ascii) (s : string) : list string :=
  match s with
  | EmptyString => [EmptyString]
  | String c r =>
      if Ascii.eqb c sep then EmptyString :: py_split sep r
      else match py_split sep r with
           | h :: t => String c h :: t
           | [] => [String c EmptyString]
           end
  end.

(** ** Score extraction *)

(** The first line of [parse_score]: the [fulltime] entry of a mapping,
    the value itself otherwise. *)
Definition fulltime_of (score : value) : value :=
  match score with
  | VDict d => dict_get d "fulltime" VNone
  | _ => score
  end.

Definition parse_score (score : value) : result (Z * Z) :=
  match fulltime_of score with
  | VDict fulltime =>
      home ← py_int (py_or (dict_get fulltime "home" (VInt 0)) (VInt 0));
      away ← py_int (py_or (dict_get fulltime "away" (VInt 0)) (VInt 0));
      Ret (home, away)
  | VStr fulltime =>
      try_except
        (match py_split "-" fulltime with
         | [home_str; away_str] =>
             home ← py_int (VStr home_str);
             away ← py_int (VStr away_str);
             Ret (home, away)
         | _ => Raise ValueError
         end)
        (0, 0)
  | _ => Ret (0, 0)
  end.

Definition result_symbol (goals_for goals_against : Z) : string :=
  if goals_for >? goals_against then "W"
  else if goals_for <? goals_against then "L"
  else "D".

Definition longest_streak (sequence : list string) (target : string) : Z :=
  fst (fold_left
         (fun '(longest, current) value =>
            if String.eqb value target
            then (Z.max longest (current + 1), current + 1)
            else (longest, 0))
         sequence (0, 0)).

(** ** Documents and collections *)

Record Event : Type := {
  ev_type : option string;       (* event.get("type") *)
  ev_player_id : option string;  (* event.get("player_id") *)
}.

(** A document of the [matches] collection.  An absent or null field is
    [None]; for [score] the outer [None] is an absent key.  [date] is a
    BSON date, milliseconds since the epoch. *)
Record Match : Type := {
  _id : option string;
  competition_id : option string;
  season_id : option string;
  date : option Z;
  venue : value;
  home_team_id : option string;
  away_team_id : option string;
  score : option value;
  events : list Event;
  lineups : value;
  stats : value;
}.

(** A document of the [players] collection. *)
Record Player : Type := {
  player_doc_id : string;        (* doc["_id"] *)
  player_name : option string;   (* doc.get("name") *)
}.

(** The store: its two collections and [single_batch], the number of
    documents of a result that the server returns in its first batch.
    That number depends on the sizes of the documents, which the model
    does not hold; nothing is assumed of it. *)
Record Store : Type := {
  matches_coll : list Match;
  players_coll : list Player;
  single_batch : list Match -> nat;
}.

(** A first batch with room for every result. *)
Definition whole_result : list Match -> nat := fun docs => length docs.

(** The filters the handlers build. *)
Inductive MatchQuery : Type :=
| Scope (competition season : option string)
    (* {"competition_id": c, "season_id": s}, each key only when given *)
| Versus (team_a team_b : string).
    (* {"$or": [{home: a, away: b}, {home: b, away: a}]} *)

Definition field_is (field : option string) (wanted : option string) : bool :=
  match wanted with
  | None => true
  | Some w => match field with Some x => String.eqb x w | None => false end
  end.

Definition matches_query (q : MatchQuery) (m : Match) : bool :=
  match q with
  | Scope c s => field_is (competition_id m) c && field_is (season_id m) s
  | Versus a b =>
      (field_is (home_team_id m) (Some a) && field_is (away_team_id m) (Some b))
      || (field_is (home_team_id m) (Some b) && field_is (away_team_id m) (Some a))
  end.

(** [matches_coll.find(query)]: the matching documents in storage order. *)
Definition find_matches (db : Store) (q : MatchQuery) : list Match :=
  List.filter (matches_query q) (matches_coll db).

(** [players_coll.find({"_id": {"$in": ids}})] *)
Definition find_players (db : Store) (ids : list string) : list Player :=
  List.filter (fun p => existsb (String.eqb (player_doc_id p)) ids) (players_coll db).

(** The reads a handler performs, in order. *)
Inductive db_call : Type :=
| FindMatches (q : MatchQuery)
| FindPlayers (ids : list string).

(** ** Sorting *)

(** A stable sort: [x] is put before the first element it does not
    exceed, so it stays before the elements it ties with. *)
Fixpoint insert_sorted {A : Type} (le : A -> A -> bool) (x : A) (l : list A) : list A :=
  match l with
  | [] => [x]
  | y :: l' => if le x y then x :: l else y :: insert_sorted le x l'
  end.

Fixpoint stable_sort {A : Type} (le : A -> A -> bool) (l : list A) : list A :=
  match l with
  | [] => []
  | x :: l' => insert_sorted le x (stable_sort le l')
  end.

(** Two elements tie when each is below the other. *)
Definition ties {A : Type} (le : A -> A -> bool) (x y : A) : bool := le x y && le y x.

(** [l.sort(key=key, reverse=True)] on integer keys: descending, and
    still stable. *)
Definition sort_by_key_reverse {A : Type} (key : A -> Z) (l : list A) : list A :=
  stable_sort (fun x y => key y <=? key x) l.

(** Order of tuples of three integers, as Python compares them. *)
Definition tuple3_le (a b : Z * Z * Z) : bool :=
  let '(a1, a2, a3) := a in
  let '(b1, b2, b3) := b in
  (a1 <? b1) || ((a1 =? b1) && ((a2 <? b2) || ((a2 =? b2) && (a3 <=? b3)))).

(** BSON order on the [date] field: a missing date sorts below every date. *)
Definition date_le (a b : option Z) : bool :=
  match a, b with
  | None, _ => true
  | Some _, None => false
  | Some x, Some y => x <=? y
  end.

(** [cursor.sort([("date", direction)])].  The server fixes no order among
    equal dates; the model keeps storage order there. *)
Definition cursor_sort_date (direction : Z) (docs : list Match) : list Match :=
  if 0 <=? direction
  then stable_sort (fun x y => date_le (date x) (date y)) docs
  else stable_sort (fun x y => date_le (date y) (date x)) docs.

(** The driver encodes the integers of a command in 64 bits at most and
    raises [OverflowError] for an integer from 2^63 on. *)
Definition INT64_BOUND : Z := 2 ^ 63.

(** [cursor.limit(n)] as pymongo sends it when the cursor is read: a
    limit of 0 is no limit; a negative limit is sent as its absolute
    value together with [singleBatch], and the answer is what the first
    batch holds of the first [|n|] documents; a limit that does not fit
    in 64 bits is refused by the driver before the command is sent. *)
Definition cursor_limit {A : Type} (first_batch : list A -> nat) (n : Z) (docs : list A)
  : result (list A) :=
  if INT64_BOUND <=? Z.abs n then Raise OverflowError
  else if n =? 0 then Ret docs
  else if 0 <? n then Ret (take (Z.to_nat n) docs)
  else Ret (take (Nat.min (Z.to_nat (Z.abs n)) (first_batch docs)) docs).

(** [l[:n]] *)
Definition slice_to {A : Type} (n : Z) (l : list A) : list A :=
  if 0 <=? n then take (Z.to_nat n) l
  else take (length l - Z.to_nat (- n))%nat l.

(** ** [defaultdict]: a finite map and its insertion order *)

Record ddict (V : Type) : Type := {
  dd_map : gmap string V;
  dd_keys : list string;
}.
Arguments dd_map {V} d.
Arguments dd_keys {V} d.

Definition dd_empty {V : Type} : ddict V := {| dd_map := ∅; dd_keys := [] |}.

(** [d[k]] as a read: the entry is created from the default on first access. *)
Definition dd_touch {V : Type} (dflt : V) (k : string) (d : ddict V) : ddict V :=
  match dd_map d !! k with
  | Some _ => d
  | None => {| dd_map := <[k := dflt]> (dd_map d); dd_keys := dd_keys d ++ [k] |}
  end.

(** An in-place update of the object stored under [k]. *)
Definition dd_update {V : Type} (f : V -> V) (k : string) (d : ddict V) : ddict V :=
  {| dd_map := alter f k (dd_map d); dd_keys := dd_keys d |}.

(** [d.items()], in insertion order. *)
Definition dd_items {V : Type} (d : ddict V) : list (string * V) :=
  omap (fun k => (fun v => (k, v)) <$> dd_map d !! k) (dd_keys d).

(** [not d] *)
Definition dd_is_empty {V : Type} (d : ddict V) : bool :=
  match dd_keys d with [] => true | _ => false end.

(** ** Responses *)

Record TableRow : Type := {
  row_team_id : string;
  row_played : Z;
  row_wins : Z;
  row_draws : Z;
  row_losses : Z;
  row_goals_for : Z;
  row_goals_against : Z;
  row_goal_difference : Z;
  row_points : Z;
}.

Record ScorerEntry : Type := {
  leader_player_id : string;
  leader_name : option string;
  leader_goals : Z;
}.

Record StreakRecord : Type := {
  streak_team_id : string;
  streak : Z;
}.

Inductive body : Type :=
| ErrorBody (code message : string)
| TableBody (competition season : string) (table : list TableRow)
| LeadersBody (leaders : list ScorerEntry)
| StreaksBody (type : string) (streaks_data : list StreakRecord)
| H2HBody (team_a team_b : string) (matches : list (list (string * value))).

(** A JSON body and its HTTP status. *)
Definition response : Type := body * Z.

Definition jsonify (b : body) : response := (b, 200).

Definition error_response (code message : string) (status : Z) : response :=
  (ErrorBody code message, status).

(** What a handler does: the reads it issued and how it ended. *)
Definition outcome : Type := list db_call * result response.

(** A query-string argument when it is truthy: present and not empty. *)
Definition given (arg : option string) : option string :=
  match arg with
  | Some s => if String.eqb s "" then None else Some s
  | None => None
  end.

(** [int(request.args.get("limit", 20))] *)
Definition limit_arg (arg : option string) : result Z :=
  match arg with
  | None => py_int (VInt 20)
  | Some s => py_int (VStr s)
  end.

(** The filter built from the optional [competition] and [season]. *)
Definition scope_query (competition season : option string) : MatchQuery :=
  Scope (given competition) (given season).

(** [match.get("score", {})] *)
Definition score_or_empty (m : Match) : value :=
  match score m with
  | Some v => v
  | None => VDict []
  end.

(** ** Standings *)

Record TeamStanding : Type := {
  played : Z;
  wins : Z;
  draws : Z;
  losses : Z;
  goals_for : Z;
  goals_against : Z;
}.

Definition new_standing : TeamStanding :=
  {| played := 0; wins := 0; draws := 0; losses := 0; goals_for := 0; goals_against := 0 |}.

Definition goal_diff (r : TeamStanding) : Z := goals_for r - goals_against r.

Definition points (r : TeamStanding) : Z := wins r * 3 + draws r.

Definition add_played (n : Z) (r : TeamStanding) : TeamStanding :=
  {| played := played r + n; wins := wins r; draws := draws r; losses := losses r;
     goals_for := goals_for r; goals_against := goals_against r |}.

Definition add_wins (n : Z) (r : TeamStanding) : TeamStanding :=
  {| played := played r; wins := wins r + n; draws := draws r; losses := losses r;
     goals_for := goals_for r; goals_against := goals_against r |}.

Definition add_draws (n : Z) (r : TeamStanding) : TeamStanding :=
  {| played := played r; wins := wins r; draws := draws r + n; losses := losses r;
     goals_for := goals_for r; goals_against := goals_against r |}.

Definition add_losses (n : Z) (r : TeamStanding) : TeamStanding :=
  {| played := played r; wins := wins r; draws := draws r; losses := losses r + n;
     goals_for := goals_for r; goals_against := goals_against r |}.

Definition add_goals_for (n : Z) (r : TeamStanding) : TeamStanding :=
  {| played := played r; wins := wins r; draws := draws r; losses := losses r;
     goals_for := goals_for r + n; goals_against := goals_against r |}.

Definition add_goals_against (n : Z) (r : TeamStanding) : TeamStanding :=
  {| played := played r; wins := wins r; draws := draws r; losses := losses r;
     goals_for := goals_for r; goals_against := goals_against r + n |}.

(** The body of the loop of [league_table] for a match with both team
    ids.  [home_row] and [away_row] are the objects stored under [home]
    and [away]; they are one object when the two ids are equal, so every
    statement is an update of the shared store. *)
Definition tally_match (standings : ddict TeamStanding) (home away : string)
    (home_goals away_goals : Z) : ddict TeamStanding :=
  let standings := dd_touch new_standing home standings in
  let standings := dd_touch new_standing away standings in
  let standings := dd_update (add_played 1) home standings in
  let standings := dd_update (add_played 1) away standings in
  let standings := dd_update (add_goals_for home_goals) home standings in
  let standings := dd_update (add_goals_against away_goals) home standings in
  let standings := dd_update (add_goals_for away_goals) away standings in
  let standings := dd_update (add_goals_against home_goals) away standings in
  if home_goals >? away_goals then
    dd_update (add_losses 1) away (dd_update (add_wins 1) home standings)
  else if home_goals <? away_goals then
    dd_update (add_losses 1) home (dd_update (add_wins 1) away standings)
  else
    dd_update (add_draws 1) away (dd_update (add_draws 1) home standings).

(** The loop of [league_table] over the matches found. *)
Fixpoint tally_matches (matches : list Match) (standings : ddict TeamStanding)
  : result (ddict TeamStanding) :=
  match matches with
  | [] => Ret standings
  | m :: rest =>
      '(home_goals, away_goals) ← parse_score (score_or_empty m);
      match home_team_id m, away_team_id m with
      | Some home, Some away =>
          tally_matches rest (tally_match standings home away home_goals away_goals)
      | _, _ => tally_matches rest standings
      end
  end.

Definition table_row (item : string * TeamStanding) : TableRow :=
  let '(team_id, row) := item in
  {| row_team_id := team_id;
     row_played := played row;
     row_wins := wins row;
     row_draws := draws row;
     row_losses := losses row;
     row_goals_for := goals_for row;
     row_goals_against := goals_against row;
     row_goal_difference := goal_diff row;
     row_points := points row |}.

(** The key of [table.sort]. *)
Definition table_key (r : TableRow) : Z * Z * Z :=
  (- row_points r, - row_goal_difference r, - row_goals_for r).

Definition sort_table (table : list TableRow) : list TableRow :=
  stable_sort (fun x y => tuple3_le (table_key x) (table_key y)) table.

Definition league_table (competition season : option string) (db : Store) : outcome :=
  match given competition, given season with
  | Some c, Some s =>
      let query := Scope (Some c) (Some s) in
      let matches := find_matches db query in
      ([FindMatches query],
       standings ← tally_matches matches dd_empty;
       let table := table_row <$> dd_items standings in
       Ret (jsonify (TableBody c s (sort_table table))))
  | _, _ =>
      ([], Ret (error_response "VALIDATION_ERROR" "competition and season are required" 422))
  end.

(** ** Top scorers *)

(** [goal_counts[player_id] += 1] on a [defaultdict(int)] *)
Definition count_goal (goal_counts : ddict Z) (player_id : string) : ddict Z :=
  dd_update (fun n => n + 1) player_id (dd_touch 0 player_id goal_counts).

(** [event.get("type") == "goal" and event.get("player_id")] *)
Definition scoring_player (event : Event) : option string :=
  match ev_type event with
  | Some t => if String.eqb t "goal" then given (ev_player_id event) else None
  | None => None
  end.

Definition count_event (goal_counts : ddict Z) (event : Event) : ddict Z :=
  match scoring_player event with
  | Some player_id => count_goal goal_counts player_id
  | None => goal_counts
  end.

(** The two nested loops of [top_scorers]. *)
Definition count_goals (matches : list Match) : ddict Z :=
  fold_left (fun goal_counts m => fold_left count_event (events m) goal_counts)
            matches dd_empty.

(** [{doc["_id"]: doc for doc in docs}] *)
Definition player_docs_of (docs : list Player) : gmap string Player :=
  fold_left (fun acc doc => <[player_doc_id doc := doc]> acc) docs ∅.

Definition leader_entry (player_docs : gmap string Player) (item : string * Z) : ScorerEntry :=
  let '(player_id, goals) := item in
  {| leader_player_id := player_id;
     leader_name := match player_docs !! player_id with
                    | Some doc => player_name doc
                    | None => None
                    end;
     leader_goals := goals |}.

Definition top_scorers (competition season limit : option string) (db : Store) : outcome :=
  match limit_arg limit with
  | Raise e => ([], Raise e)
  | Ret limit =>
      let query := scope_query competition season in
      let matches := find_matches db query in
      let goal_counts := count_goals matches in
      if dd_is_empty goal_counts then
        ([FindMatches query], Ret (jsonify (LeadersBody [])))
      else
        let ids := dd_keys goal_counts in
        let player_docs := player_docs_of (find_players db ids) in
        let leaders := leader_entry player_docs <$> dd_items goal_counts in
        let leaders := sort_by_key_reverse leader_goals leaders in
        ([FindMatches query; FindPlayers ids],
         Ret (jsonify (LeadersBody (slice_to limit leaders))))
  end.

(** ** Streaks *)

(** [streak_type in {"win", "loss", "clean_sheet"}] *)
Definition allowed_streak_type (streak_type : option string) : bool :=
  match streak_type with
  | Some t => String.eqb t "win" || String.eqb t "loss" || String.eqb t "clean_sheet"
  | None => false
  end.

(** [team_results[team].append(symbol)] on a [defaultdict(list)] *)
Definition append_result (team_results : ddict (list string)) (team symbol : string)
  : ddict (list string) :=
  dd_update (fun l => l ++ [symbol]) team (dd_touch [] team team_results).

(** The body of the loop of [streaks] for a match with both team ids. *)
Definition record_match (streak_type : string) (team_results : ddict (list string))
    (home away : string) (home_goals away_goals : Z) : ddict (list string) :=
  if String.eqb streak_type "clean_sheet" then
    let team_results :=
      append_result team_results home (if away_goals =? 0 then "C" else "N") in
    append_result team_results away (if home_goals =? 0 then "C" else "N")
  else
    let team_results :=
      append_result team_results home (result_symbol home_goals away_goals) in
    append_result team_results away (result_symbol away_goals home_goals).

Fixpoint record_matches (streak_type : string) (matches : list Match)
    (team_results : ddict (list string)) : result (ddict (list string)) :=
  match matches with
  | [] => Ret team_results
  | m :: rest =>
      '(home_goals, away_goals) ← parse_score (score_or_empty m);
      match home_team_id m, away_team_id m with
      | Some home, Some away =>
          record_matches streak_type rest
            (record_match streak_type team_results home away home_goals away_goals)
      | _, _ => record_matches streak_type rest team_results
      end
  end.

Definition streak_target (streak_type : string) : string :=
  if String.eqb streak_type "win" then "W"
  else if String.eqb streak_type "loss" then "L"
  else "C".

Definition streak_entry (streak_type : string) (item : string * list string) : StreakRecord :=
  let '(team_id, results) := item in
  {| streak_team_id := team_id;
     streak := longest_streak results (streak_target streak_type) |}.

Definition streaks (competition season streak_type : option string) (db : Store) : outcome :=
  match streak_type with
  | Some type =>
      if allowed_streak_type streak_type then
        let query := scope_query competition season in
        let matches := cursor_sort_date 1 (find_matches db query) in
        ([FindMatches query],
         team_results ← record_matches type matches dd_empty;
         let streaks_data := streak_entry type <$> dd_items team_results in
         let streaks_data := sort_by_key_reverse streak streaks_data in
         Ret (jsonify (StreaksBody type streaks_data)))
      else
        ([], Ret (error_response "VALIDATION_ERROR" "type must be win, loss, or clean_sheet" 422))
  | None =>
      ([], Ret (error_response "VALIDATION_ERROR" "type must be win, loss, or clean_sheet" 422))
  end.

(** ** Head to head *)

Definition of_opt_str (o : option string) : value :=
  match o with Some s => VStr s | None => VNone end.

Definition of_opt_date (o : option Z) : value :=
  match o with Some ms => VDate ms | None => VNone end.

Definition serialize_match (doc : Match) : list (string * value) :=
  [ ("_id", of_opt_str (_id doc));
    ("date", of_opt_date (date doc));
    ("competition_id", of_opt_str (competition_id doc));
    ("season_id", of_opt_str (season_id doc));
    ("home_team_id", of_opt_str (home_team_id doc));
    ("away_team_id", of_opt_str (away_team_id doc));
    ("score", default VNone (score doc)) ].

Definition head_to_head (team_a team_b limit : option string) (db : Store) : outcome :=
  match limit_arg limit with
  | Raise e => ([], Raise e)
  | Ret limit =>
      match given team_a, given team_b with
      | Some a, Some b =>
          let query := Versus a b in
          match cursor_limit (single_batch db) limit
                  (cursor_sort_date (-1) (find_matches db query)) with
          | Raise e => ([], Raise e)
          | Ret matches =>
              ([FindMatches query], Ret (jsonify (H2HBody a b (serialize_match <$> matches))))
          end
      | _, _ =>
          ([], Ret (error_response "VALIDATION_ERROR" "team_a and team_b are required" 422))
      end
  end.

(** ** The specification's tallies *)

(** The row of [team], a zero row when it has none yet. *)
Definition row_of (team : string) (standings : ddict TeamStanding) : TeamStanding :=
  default new_standing (dd_map standings !! team).

(** One side's share of one match, in the words of the specification:
    one more match played, the goals scored and conceded added, and a
    win, a draw or a loss according to the comparison. *)
Definition after_match (r : TeamStanding) (scored conceded : Z) : TeamStanding :=
  {| played := played r + 1;
     wins := wins r + (if scored >? conceded then 1 else 0);
     draws := draws r + (if scored =? conceded then 1 else 0);
     losses := losses r + (if scored <? conceded then 1 else 0);
     goals_for := goals_for r + scored;
     goals_against := goals_against r + conceded |}.

(** [after_match] for [team] when it is the [side] named, nothing otherwise. *)
Definition side_share (side : string) (scored conceded : Z) (team : string)
    (r : TeamStanding) : TeamStanding :=
  if decide (team = side) then after_match r scored conceded else r.

(** What one match adds to the tally of [team]: its home share and its
    away share when the match has both team ids, nothing otherwise. *)
Definition team_share (team : string) (r : TeamStanding) (m : Match) : TeamStanding :=
  match home_team_id m, away_team_id m, parse_score (score_or_empty m) with
  | Some home, Some away, Ret (home_goals, away_goals) =>
      side_share away away_goals home_goals team
        (side_share home home_goals away_goals team r)
  | _, _, _ => r
  end.

(** The tally of [team] over a list of matches. *)
Definition team_record (team : string) (matches : list Match) : TeamStanding :=
  fold_left (team_share team) matches new_standing.

(** The identity between matches played and results recorded. *)
Definition balanced (r : TeamStanding) : Prop :=
  played r = wins r + draws r + losses r.

Definition standings_balanced (standings : ddict TeamStanding) : Prop :=
  forall team r, dd_map standings !! team = Some r -> balanced r.

(** The order of the league table: more points first, then the better
    goal difference, then more goals scored. *)
Definition ranked_before (r1 r2 : TableRow) : Prop :=
  row_points r1 > row_points r2 \/
  (row_points r1 = row_points r2 /\
   (row_goal_difference r1 > row_goal_difference r2 \/
    (row_goal_difference r1 = row_goal_difference r2 /\
     row_goals_for r1 >= row_goals_for r2))).

(** Rows tied on points, goal difference and goals scored. *)
Definition fully_tied (r1 r2 : TableRow) : bool :=
  (row_points r1 =? row_points r2) &&
  (row_goal_difference r1 =? row_goal_difference r2) &&
  (row_goals_for r1 =? row_goals_for r2).

(** The symbols recorded for [team] so far. *)
Definition results_of (team : string) (team_results : ddict (list string)) : list string :=
  default [] (dd_map team_results !! team).

(** The scan of [longest_streak]: the pair [(longest, current)] after a
    prefix of the sequence. *)
Definition streak_scan (target : string) (sequence : list string) : Z * Z :=
  fold_left
    (fun '(longest, current) value =>
       if String.eqb value target
       then (Z.max longest (current + 1), current + 1)
       else (longest, 0))
    sequence (0, 0).

(** ** Sample data *)

Definition mk_match (id : string) (day : Z) (home away : option string) (sc : option value)
    (evs : list Event) : Match :=
  {| _id := Some id; competition_id := Some "PL"; season_id := Some "2024";
     date := Some day; venue := VNone; home_team_id := home; away_team_id := away;
     score := sc; events := evs; lineups := VDict []; stats := VDict [] |}.

(** The matches "TeamX 3-1 TeamY" and "TeamY 2-2 TeamX". *)
Definition first_leg : Match :=
  mk_match "m1" 1 (Some "TeamX") (Some "TeamY") (Some (VStr "3-1")) [].

Definition second_leg : Match :=
  mk_match "m2" 2 (Some "TeamY") (Some "TeamX")
    (Some (VDict [("fulltime", VDict [("home", VInt 2); ("away", VInt 2)])])) [].

Definition sample_db : Store :=
  {| matches_coll := [first_leg; second_leg]; players_coll := []; single_batch := whole_result |}.

(** A match without a home team whose score holds a word for a number,
    stored before the two sample matches. *)
Definition teamless_match : Match :=
  mk_match "m0" 0 None (Some "TeamY")
    (Some (VDict [("fulltime", VDict [("home", VStr "x"); ("away", VInt 1)])])) [].

Definition teamless_db : Store :=
  {| matches_coll := [teamless_match; first_leg; second_leg]; players_coll := []; single_batch := whole_result |}.

(** A match without an away team whose score is well formed. *)
Definition teamless_ok : Match :=
  mk_match "m4" 4 (Some "TeamZ") None (Some (VStr "4-0")) [].

(** A match with both teams and the score of [teamless_match]. *)
Definition malformed_match : Match :=
  mk_match "m3" 3 (Some "TeamX") (Some "TeamY")
    (Some (VDict [("fulltime", VDict [("home", VStr "x"); ("away", VInt 1)])])) [].

Definition malformed_db : Store :=
  {| matches_coll := [first_leg; malformed_match]; players_coll := []; single_batch := whole_result |}.

Definition sample_table : list TableRow :=
  [ {| row_team_id := "TeamX"; row_played := 2; row_wins := 1; row_draws := 1;
       row_losses := 0; row_goals_for := 5; row_goals_against := 3;
       row_goal_difference := 2; row_points := 4 |};
    {| row_team_id := "TeamY"; row_played := 2; row_wins := 0; row_draws := 1;
       row_losses := 1; row_goals_for := 3; row_goals_against := 5;
       row_goal_difference := -2; row_points := 1 |} ].

(** Five teams first seen in the order A, B, C, D, E.  E wins and goes
    first, A loses a match and goes last; B, C and D tie on all three keys
    and keep the order in which they were first seen. *)
Definition tied_db : Store :=
  {| matches_coll :=
       [ mk_match "d1" 1 (Some "A") (Some "B") (Some (VStr "1-1")) [];
         mk_match "d2" 2 (Some "C") (Some "D") (Some (VStr "1-1")) [];
         mk_match "d3" 3 (Some "E") (Some "A") (Some (VStr "1-0")) [] ];
     players_coll := []; single_batch := whole_result |}.

(** The matches of the specification's example, stored out of order:
    A beats B 2-0, then A and B draw 1-1, then A loses to B 0-3. *)
Definition streak_db : Store :=
  {| matches_coll :=
       [ mk_match "s3" 30 (Some "A") (Some "B") (Some (VStr "0-3")) [];
         mk_match "s1" 10 (Some "A") (Some "B") (Some (VStr "2-0")) [];
         mk_match "s2" 20 (Some "A") (Some "B") (Some (VStr "1-1")) [] ];
     players_coll := []; single_batch := whole_result |}.

(** The goals counted for [player] so far. *)
Definition goals_of (player : string) (goal_counts : ddict Z) : Z :=
  default 0 (dd_map goal_counts !! player).

(** The events of a list of matches, in scan order. *)
Definition all_events (matches : list Match) : list Event :=
  concat (events <$> matches).

(** An event the leaderboard counts for [player]: its type is "goal" and
    its player id is [player], not empty. *)
Definition qualifying (event : Event) (player : string) : Prop :=
  ev_type event = Some "goal" /\ ev_player_id event = Some player /\ player <> "".

#[global] Instance qualifying_dec event player : Decision (qualifying event player).
Proof. unfold qualifying. apply _. Defined.

Definition goal (player : string) : Event :=
  {| ev_type := Some "goal"; ev_player_id := Some player |}.

(** Two goals of p1, one of p2, a goal without a player, a goal with an
    empty player id and a card. *)
Definition scorers_db : Store :=
  {| matches_coll :=
       [ mk_match "g1" 1 (Some "A") (Some "B") (Some (VStr "1-1"))
           [ goal "p2"; {| ev_type := Some "goal"; ev_player_id := None |}; goal "p1" ];
         mk_match "g2" 2 (Some "B") (Some "A") (Some (VStr "1-0"))
           [ {| ev_type := Some "card"; ev_player_id := Some "p2" |}; goal ""; goal "p1" ] ];
     players_coll := [ {| player_doc_id := "p1"; player_name := Some "Ada" |} ];
     single_batch := whole_result |}.

(** A match between [a] and [b], in either orientation. *)
Definition between (a b : string) (m : Match) : Prop :=
  (home_team_id m = Some a /\ away_team_id m = Some b) \/
  (home_team_id m = Some b /\ away_team_id m = Some a).

#[global] Instance between_dec a b m : Decision (between a b m).
Proof. unfold between. apply _. Defined.

(** [x] is dated no earlier than [y]; a match without a date is the
    earliest. *)
Definition newer_or_same (x y : Match) : Prop :=
  match date x, date y with
  | _, None => True
  | None, Some _ => False
  | Some dx, Some dy => dy <= dx
  end.

(** The keys of the public view of a match. *)
Definition public_fields : list string :=
  ["_id"; "date"; "competition_id"; "season_id"; "home_team_id"; "away_team_id"; "score"].

(** ** Pagination and sorting of the list handlers ([utils.py]) *)

(** [int(request.args.get(key, dflt))] for an integer default. *)
Definition int_arg (arg : option string) (dflt : Z) : result Z :=
  match arg with
  | None => py_int (VInt dflt)
  | Some s => py_int (VStr s)
  end.

(** [parse_pagination].  The two constants of the configuration module
    are arguments. *)
Definition parse_pagination (PAGINATION_DEFAULT PAGINATION_MAX : Z)
    (page page_size : option string) : result (Z * Z) :=
  let default := PAGINATION_DEFAULT in
  page ← (p ← int_arg page 1; Ret (Z.max p 1));
  page_size ← int_arg page_size default;
  let page_size := Z.max 1 (Z.min page_size PAGINATION_MAX) in
  Ret (page, page_size).

(** [(total + page_size - 1) // page_size if page_size else 1] *)
Definition total_pages_of (page_size total : Z) : Z :=
  if page_size =? 0 then 1 else (total + page_size - 1) / page_size.

Record Envelope : Type := {
  env_page : Z;
  env_page_size : Z;
  env_total_pages : Z;
  env_total_items : Z;
  env_data : list (list (string * value));
}.

Definition pagination_envelope (data : list (list (string * value)))
    (page page_size total : Z) : Envelope :=
  {| env_page := page;
     env_page_size := page_size;
     env_total_pages := total_pages_of page_size total;
     env_total_items := total;
     env_data := data |}.

(** One item of the [sort] argument: a leading "-" asks for descending
    order and is dropped from the name. *)
Definition sort_field (field : string) : string * Z :=
  match field with
  | String c rest => if Ascii.eqb c "-" then (rest, -1) else (field, 1)
  | EmptyString => (field, 1)
  end.

(** [parse_sort(default)], given [request.args.get("sort")]. *)
Definition parse_sort (default : string) (sort : option string) : list (string * Z) :=
  let sort_param := match sort with Some s => s | None => default end in
  sort_field <$> py_split "," sort_param.

(** [cursor.skip(n)]: pymongo refuses a negative skip with [ValueError]
    at once, and the driver a skip that does not fit in 64 bits with
    [OverflowError] when the cursor is read. *)
Definition cursor_skip {A : Type} (n : Z) (docs : list A) : result (list A) :=
  if n <? 0 then Raise ValueError
  else if INT64_BOUND <=? n then Raise OverflowError
  else Ret (drop (Z.to_nat n) docs).

(** [cursor.skip((page - 1) * page_size).limit(page_size)] read to its
    end: the window a list handler cuts out of [docs], the sorted result
    of the query of one request. *)
Definition page_items {A : Type} (first_batch : list A -> nat) (page page_size : Z)
    (docs : list A) : result (list A) :=
  skipped ← cursor_skip ((page - 1) * page_size) docs;
  cursor_limit first_batch page_size skipped.

(** The number of occurrences of a character in a string. *)
Fixpoint count_char (c : ascii) (s : string) : nat :=
  match s with
  | EmptyString => 0
  | String c' r => if Ascii.eqb c' c then S (count_char c r) else count_char c r
  end.

(** [sep.join(parts)] *)
Fixpoint py_join (sep : ascii) (parts : list string) : string :=
  match parts with
  | [] => EmptyString
  | [p] => p
  | p :: rest => String.append p (String sep (py_join sep rest))
  end.

(** ** Totals and well-formed dictionaries *)

(** A dictionary lists each of its keys once, in the order of insertion. *)
Definition dd_wf {V : Type} (d : ddict V) : Prop :=
  NoDup (dd_keys d) /\ forall k, k ∈ dd_keys d <-> is_Some (dd_map d !! k).

(** The sum of a column. *)
Definition sum_of {A : Type} (f : A -> Z) (l : list A) : Z :=
  foldr (fun x acc => f x + acc) 0 l.

(** The sum of a measure over the rows of a dictionary. *)
Definition dd_total {V : Type} (f : V -> Z) (d : ddict V) : Z :=
  sum_of (fun kv => f kv.2) (map_to_list (dd_map d)).

(** A match the loops tally: both team ids are present. *)
Definition has_both_teams (m : Match) : bool :=
  match home_team_id m, away_team_id m with
  | Some _, Some _ => true
  | _, _ => false
  end.

(** [team] plays in [m], a match with both team ids. *)
Definition plays_in (team : string) (m : Match) : Prop :=
  has_both_teams m = true /\
  (home_team_id m = Some team \/ away_team_id m = Some team).

(** The number of occurrences of a symbol in a sequence. *)
Definition count_symbol (symbol : string) (sequence : list string) : Z :=
  Z.of_nat (length (filter (fun x => x = symbol) sequence)).

(** One step of the scan of [longest_streak]. *)
Definition scan_step (target : string) : Z * Z -> string -> Z * Z :=
  fun '(longest, current) value =>
    if String.eqb value target
    then (Z.max longest (current + 1), current + 1)
    else (longest, 0).

(** The order of the streak rows. *)
Definition longer_or_same (x y : StreakRecord) : Prop := streak y <= streak x.

(** The symbol a side receives for a match in which it scored [scored]
    and conceded [conceded]. *)
Definition side_symbol (streak_type : string) (scored conceded : Z) : string :=
  if String.eqb streak_type "clean_sheet"
  then (if conceded =? 0 then "C" else "N")
  else result_symbol scored conceded.

(** The symbols one match adds to the sequence of [team]: one as the
    home side, one as the away side, none for a match without both team
    ids. *)
Definition match_symbols (streak_type team : string) (m : Match) : list string :=
  match home_team_id m, away_team_id m, parse_score (score_or_empty m) with
  | Some home, Some away, Ret (home_goals, away_goals) =>
      (if decide (team = home) then [side_symbol streak_type home_goals away_goals] else [])
      ++ (if decide (team = away) then [side_symbol streak_type away_goals home_goals] else [])
  | _, _, _ => []
  end.

(** The items of a page, none when the window cannot be cut. *)
Definition page_or_empty {A : Type} (first_batch : list A -> nat) (page page_size : Z)
    (docs : list A) : list A :=
  match page_items first_batch page page_size docs with
  | Ret items => items
  | Raise _ => []
  end.

(** How a client writes one sort field. *)
Definition sort_item (field : string * Z) : string :=
  if decide (field.2 = -1) then String "-" field.1 else field.1.

(** The same request with the two teams exchanged: what it changes in
    a read of the store, in a body and in an outcome. *)
Definition mirror_call (call : db_call) : db_call :=
  match call with
  | FindMatches (Versus a b) => FindMatches (Versus b a)
  | _ => call
  end.

Definition mirror_body (b : body) : body :=
  match b with
  | H2HBody team_a team_b matches => H2HBody team_b team_a matches
  | _ => b
  end.

Definition mirror (o : outcome) : outcome :=
  (mirror_call <$> o.1, (fun r : response => (mirror_body r.1, r.2)) <$> o.2).

(** The sample store with its matches in the other order. *)
Definition reordered_db : Store :=
  {| matches_coll := [second_leg; first_leg]; players_coll := []; single_batch := whole_result |}.

(** * Properties *)

(** ** The result monad *)

Lemma bind_Ret_inv {A B : Type} (m : result A) (k : A -> result B) (b : B) :
  m ≫= k = Ret b -> exists a, m = Ret a /\ k a = Ret b.
Proof. destruct m as [a|e]; simpl; [eauto | discriminate]. Qed.

Lemma returns_Ret {A : Type} (a : A) : returns (Ret a).
Proof. by exists a. Qed.

(** ** [defaultdict] *)

Section DefaultDict.
Context {V : Type}.
Implicit Types (d : ddict V) (k : string).

Lemma dd_touch_lookup dflt k k' d :
  dd_map (dd_touch dflt k d) !! k' =
  if decide (k = k') then Some (default dflt (dd_map d !! k)) else dd_map d !! k'.
Proof.
  unfold dd_touch. destruct (dd_map d !! k) as [v|] eqn:E; simpl.
  - case_decide; [by subst | done].
  - case_decide; [subst; by rewrite lookup_insert_eq | by rewrite lookup_insert_ne].
Qed.

Lemma dd_update_lookup f k k' d :
  dd_map (dd_update f k d) !! k' =
  if decide (k = k') then f <$> dd_map d !! k' else dd_map d !! k'.
Proof.
  unfold dd_update; simpl. case_decide.
  - subst. by rewrite lookup_alter_eq.
  - by rewrite lookup_alter_ne.
Qed.

Lemma dd_update_keys f k d : dd_keys (dd_update f k d) = dd_keys d.
Proof. reflexivity. Qed.

Lemma dd_items_lookup d k v : (k, v) ∈ dd_items d -> dd_map d !! k = Some v.
Proof.
  unfold dd_items. rewrite list_elem_of_omap. intros (k0 & _ & H).
  destruct (dd_map d !! k0) as [v0|] eqn:E; simpl in H; [|discriminate].
  by simplify_eq.
Qed.

Lemma dd_is_empty_keys d : dd_is_empty d = true <-> dd_keys d = [].
Proof. unfold dd_is_empty. destruct (dd_keys d); split; congruence. Qed.
End DefaultDict.

(** ** The stable sort *)

Section StableSort.
Context {A : Type} (le : A -> A -> bool).
Hypothesis le_total : forall x y, le x y = false -> le y x = true.
Hypothesis le_trans : forall x y z, le x y = true -> le y z = true -> le x z = true.

Lemma insert_sorted_perm x l : insert_sorted le x l ≡ₚ x :: l.
Proof.
  induction l as [|y l IH]; simpl; [done|].
  destruct (le x y); [done|]. rewrite IH. apply Permutation_swap.
Qed.

Lemma stable_sort_perm l : stable_sort le l ≡ₚ l.
Proof.
  induction l as [|x l IH]; simpl; [done|].
  by rewrite insert_sorted_perm, IH.
Qed.

Lemma insert_sorted_sorted x l :
  StronglySorted (fun a b => le a b = true) l ->
  StronglySorted (fun a b => le a b = true) (insert_sorted le x l).
Proof.
  induction 1 as [|y l Hl IH Hy]; simpl.
  - repeat constructor.
  - destruct (le x y) eqn:E.
    + constructor; [by constructor|].
      constructor; [done|].
      eapply Forall_impl; [exact Hy|]. intros z Hz. by eapply le_trans.
    + constructor; [done|].
      rewrite insert_sorted_perm. constructor; [by apply le_total | done].
Qed.

Lemma stable_sort_sorted l : StronglySorted (fun a b => le a b = true) (stable_sort le l).
Proof.
  induction l as [|x l IH]; simpl; [constructor | by apply insert_sorted_sorted].
Qed.

Lemma ties_trans_left x a y : ties le x a = true -> ties le x y = true -> le a y = true.
Proof.
  unfold ties. rewrite !andb_true_iff. intros [_ Hax] [Hxy _]. by eapply le_trans.
Qed.

Lemma insert_sorted_filter_ties x a l :
  List.filter (ties le x) (insert_sorted le a l) =
  (if ties le x a then [a] else []) ++ List.filter (ties le x) l.
Proof.
  induction l as [|y l IH]; simpl; [by destruct (ties le x a)|].
  destruct (le a y) eqn:E; simpl; [by destruct (ties le x a)|].
  rewrite IH. destruct (ties le x y) eqn:Ey, (ties le x a) eqn:Ea; simpl; try done.
  rewrite (ties_trans_left x a y) in E; done.
Qed.

(** Stability: the elements that tie with [x] keep their order. *)
Lemma stable_sort_stable x l :
  List.filter (ties le x) (stable_sort le l) = List.filter (ties le x) l.
Proof.
  induction l as [|a l IH]; simpl; [done|].
  rewrite insert_sorted_filter_ties, IH. by destruct (ties le x a).
Qed.
End StableSort.

Lemma tuple3_le_total a b : tuple3_le a b = false -> tuple3_le b a = true.
Proof.
  destruct a as [[a1 a2] a3], b as [[b1 b2] b3]; unfold tuple3_le.
  rewrite !orb_false_iff, !andb_false_iff, !orb_true_iff, !andb_true_iff, !orb_true_iff,
    !orb_false_iff, !andb_true_iff, !andb_false_iff.
  rewrite ?Z.ltb_lt, ?Z.ltb_ge, ?Z.leb_le, ?Z.leb_gt, ?Z.eqb_eq, ?Z.eqb_neq. lia.
Qed.

Lemma tuple3_le_spec a1 a2 a3 b1 b2 b3 :
  tuple3_le (a1, a2, a3) (b1, b2, b3) = true <->
  a1 < b1 \/ (a1 = b1 /\ (a2 < b2 \/ (a2 = b2 /\ a3 <= b3))).
Proof.
  unfold tuple3_le.
  rewrite !orb_true_iff, !andb_true_iff, !orb_true_iff, !andb_true_iff.
  rewrite ?Z.ltb_lt, ?Z.leb_le, ?Z.eqb_eq. tauto.
Qed.

Lemma tuple3_le_trans a b c :
  tuple3_le a b = true -> tuple3_le b c = true -> tuple3_le a c = true.
Proof.
  destruct a as [[a1 a2] a3], b as [[b1 b2] b3], c as [[c1 c2] c3].
  rewrite !tuple3_le_spec. lia.
Qed.

Lemma tuple3_ties a b :
  tuple3_le a b && tuple3_le b a = true <-> a = b.
Proof.
  destruct a as [[a1 a2] a3], b as [[b1 b2] b3].
  rewrite andb_true_iff, !tuple3_le_spec. split.
  - intros [H1 H2]. repeat f_equal; lia.
  - intros [= -> -> ->]. lia.
Qed.

Lemma date_le_total a b : date_le a b = false -> date_le b a = true.
Proof.
  destruct a, b; simpl; try done. rewrite Z.leb_gt, Z.leb_le. lia.
Qed.

Lemma date_le_trans a b c : date_le a b = true -> date_le b c = true -> date_le a c = true.
Proof.
  destruct a, b, c; simpl; try done. rewrite !Z.leb_le. lia.
Qed.

(** ** Score extraction *)

Lemma try_except_returns (body : result (Z * Z)) (handler : Z * Z) :
  (forall e, body = Raise e -> e = ValueError) ->
  returns (try_except body handler).
Proof.
  intros H. destruct body as [a|e]; simpl; [apply returns_Ret|].
  rewrite (H e eq_refl). apply returns_Ret.
Qed.

Lemma py_int_str_raises s e : py_int (VStr s) = Raise e -> e = ValueError.
Proof. simpl. destruct (int_of_str s); congruence. Qed.

(** Off the mapping branch [parse_score] cannot raise: the string branch
    catches every [ValueError] and [int] of a string raises nothing else. *)
Lemma parse_score_returns_off_mapping score :
  (forall d, fulltime_of score <> VDict d) -> returns (parse_score score).
Proof.
  intros H. unfold parse_score.
  destruct (fulltime_of score) as [| | | |s| | |d]; try apply returns_Ret.
  - apply try_except_returns. intros e.
    destruct (py_split "-" s) as [|h [|a [|? ?]]]; try congruence.
    destruct (py_int (VStr h)) as [n|e1] eqn:E1, (py_int (VStr a)) as [n2|e2] eqn:E2;
      simpl; intros Heq; simplify_eq; eauto using py_int_str_raises.
  - by destruct (H d).
Qed.

Lemma py_int_or_int (n : Z) : py_int (py_or (VInt n) (VInt 0)) = Ret n.
Proof.
  unfold py_or; simpl. destruct (n =? 0) eqn:E; simpl; [|done].
  apply Z.eqb_eq in E. by subst.
Qed.

(** C1.  Score extraction on the four sample inputs of the specification:
    [None] gives (0, 0), ["2-1"] gives (2, 1) and a [fulltime] entry
    ["bad"] gives (0, 0); on [{"fulltime": {"home": 3, "away": "x"}}] the
    mapping branch calls [int("x")] outside any [try] and the function
    raises [ValueError] instead of returning (3, 0). *)
Theorem parse_score_samples :
  parse_score VNone = Ret (0, 0) /\
  parse_score (VStr "2-1") = Ret (2, 1) /\
  parse_score (VDict [("fulltime", VStr "bad")]) = Ret (0, 0) /\
  parse_score (VDict [("fulltime", VDict [("home", VInt 3); ("away", VStr "x")])])
    = Raise ValueError.
Proof. repeat split. Qed.

(** C2, as stated, fails: a mapping without a [fulltime] entry is not
    read as the fulltime value; [{"home": 2, "away": 1}] gives (0, 0). *)
Lemma parse_score_flat_mapping_cex :
  dict_lookup [("home", VInt 2); ("away", VInt 1)] "fulltime" = None /\
  parse_score (VDict [("home", VInt 2); ("away", VInt 1)]) = Ret (0, 0) /\
  parse_score (VDict [("home", VInt 2); ("away", VInt 1)]) <> Ret (2, 1).
Proof. repeat split. discriminate. Qed.

(** C2, amended.  A mapping is read through its [fulltime] entry: without
    one the result is (0, 0), and with a [fulltime] mapping holding
    integers [h] and [a] under [home] and [away] the result is (h, a).
    Only a value that is not a mapping is itself the fulltime value: it
    parses as it would under a [fulltime] key. *)
Theorem parse_score_mapping :
  (forall d, dict_lookup d "fulltime" = None -> parse_score (VDict d) = Ret (0, 0)) /\
  (forall d ft h a,
      dict_lookup d "fulltime" = Some (VDict ft) ->
      dict_lookup ft "home" = Some (VInt h) ->
      dict_lookup ft "away" = Some (VInt a) ->
      parse_score (VDict d) = Ret (h, a)) /\
  (forall v, (forall d, v <> VDict d) ->
      fulltime_of v = v /\ parse_score v = parse_score (VDict [("fulltime", v)])).
Proof.
  split; [|split].
  - intros d H. unfold parse_score, fulltime_of, dict_get. by rewrite H.
  - intros d ft h a Hd Hh Ha.
    unfold parse_score, fulltime_of, dict_get. rewrite Hd.
    unfold dict_get. rewrite Hh, Ha, !py_int_or_int. reflexivity.
  - intros v Hv. destruct v; try done. by destruct (Hv d).
Qed.

Lemma parse_score_mapping_witness :
  parse_score (VDict [("halftime", VStr "1-0")]) = Ret (0, 0) /\
  parse_score (VDict [("fulltime", VDict [("home", VInt 2); ("away", VInt 1)])]) = Ret (2, 1) /\
  parse_score (VStr "2-1") = parse_score (VDict [("fulltime", VStr "2-1")]).
Proof.
  destruct parse_score_mapping as (H1 & H2 & H3).
  split; [|split].
  - apply H1. reflexivity.
  - apply (H2 _ [("home", VInt 2); ("away", VInt 1)]); reflexivity.
  - apply H3. discriminate.
Defined.

(** ** Standings *)

Ltac destruct_lookups :=
  repeat match goal with
         | |- context [dd_map ?d !! ?k] => destruct (dd_map d !! k)
         end.

Ltac standing_eq hg ag :=
  unfold after_match, add_played, add_wins, add_draws, add_losses,
    add_goals_for, add_goals_against, new_standing; simpl;
  rewrite ?Z.gtb_ltb, ?(Z.eqb_sym ag hg);
  destruct (Z.ltb_spec hg ag), (Z.ltb_spec ag hg), (Z.eqb_spec hg ag);
  try lia; f_equal; lia.

(** What [tally_match] leaves under each key: the home share followed by
    the away share, also when the two teams are one. *)
Lemma tally_match_row standings home away hg ag team :
  row_of team (tally_match standings home away hg ag) =
  side_share away ag hg team (side_share home hg ag team (row_of team standings)).
Proof.
  unfold row_of, side_share, tally_match.
  rewrite !(Z.gtb_ltb hg ag).
  destruct (Z.ltb_spec ag hg) as [Hlt|Hge]; [|destruct (Z.ltb_spec hg ag) as [Hlt|Hge']];
    rewrite !dd_update_lookup, !dd_touch_lookup;
    repeat case_decide; simplify_eq;
    destruct_lookups; simpl;
    try reflexivity; standing_eq hg ag.
Qed.

Lemma tally_match_present standings home away hg ag team :
  team = home \/ team = away ->
  dd_map (tally_match standings home away hg ag) !! team
  = Some (row_of team (tally_match standings home away hg ag)).
Proof.
  intros Ht. unfold row_of, tally_match.
  destruct (hg >? ag); [|destruct (hg <? ag)];
    rewrite !dd_update_lookup, !dd_touch_lookup;
    repeat case_decide; simplify_eq; try (by destruct Ht);
    destruct_lookups; reflexivity.
Qed.

Lemma tally_match_other standings home away hg ag team :
  team <> home -> team <> away ->
  dd_map (tally_match standings home away hg ag) !! team = dd_map standings !! team.
Proof.
  intros Hh Ha. unfold tally_match.
  destruct (hg >? ag); [|destruct (hg <? ag)];
    rewrite !dd_update_lookup, !dd_touch_lookup;
    repeat case_decide; simplify_eq; reflexivity.
Qed.

Lemma tally_matches_cons m rest standings home away hg ag :
  home_team_id m = Some home ->
  away_team_id m = Some away ->
  parse_score (score_or_empty m) = Ret (hg, ag) ->
  tally_matches (m :: rest) standings
  = tally_matches rest (tally_match standings home away hg ag).
Proof. intros Hh Ha Hs. simpl. rewrite Hs, Hh, Ha. reflexivity. Qed.

(** A match without one of its team ids is passed over once its score
    has been extracted. *)
Lemma tally_matches_skip m rest standings :
  home_team_id m = None \/ away_team_id m = None ->
  returns (parse_score (score_or_empty m)) ->
  tally_matches (m :: rest) standings = tally_matches rest standings.
Proof.
  intros Hm [[hg ag] Hs]. simpl. rewrite Hs. simpl.
  destruct Hm as [-> | ->]; [done|]. by destruct (home_team_id m).
Qed.

Lemma tally_matches_returns matches standings :
  Forall (fun m => returns (parse_score (score_or_empty m))) matches ->
  returns (tally_matches matches standings).
Proof.
  intros H. revert standings.
  induction H as [|m rest [[hg ag] Hs] _ IH]; intros standings; simpl.
  - apply returns_Ret.
  - rewrite Hs; simpl. destruct (home_team_id m), (away_team_id m); apply IH.
Qed.

Lemma tally_matches_row matches : forall standings standings' team,
  tally_matches matches standings = Ret standings' ->
  row_of team standings' = fold_left (team_share team) matches (row_of team standings).
Proof.
  induction matches as [|m rest IH]; intros standings standings' team; simpl.
  - by intros [= ->].
  - unfold team_share at 2.
    destruct (parse_score (score_or_empty m)) as [[hg ag]|e]; simpl; [|discriminate].
    destruct (home_team_id m) as [home|], (away_team_id m) as [away|]; intros H;
      rewrite (IH _ _ team H); try reflexivity.
    by rewrite tally_match_row.
Qed.

Lemma league_table_inv competition season db log c s table status :
  league_table competition season db = (log, Ret (TableBody c s table, status)) ->
  exists standings,
    tally_matches (find_matches db (Scope (Some c) (Some s))) dd_empty = Ret standings /\
    table = sort_table (table_row <$> dd_items standings) /\
    log = [FindMatches (Scope (Some c) (Some s))] /\ status = 200.
Proof.
  unfold league_table.
  destruct (given competition) as [c0|], (given season) as [s0|]; try discriminate.
  intros [= <- H].
  apply bind_Ret_inv in H as (standings & Hst & H).
  injection H as <- <- <- <-. by exists standings.
Qed.

(** With both arguments given the handler returns a table as soon as
    every score in scope can be extracted. *)
Lemma league_table_returns competition season db c s :
  given competition = Some c ->
  given season = Some s ->
  Forall (fun m => returns (parse_score (score_or_empty m)))
         (find_matches db (Scope (Some c) (Some s))) ->
  exists table,
    league_table competition season db
    = ([FindMatches (Scope (Some c) (Some s))], Ret (TableBody c s table, 200)).
Proof.
  intros Hc Hs Hscores. unfold league_table. rewrite Hc, Hs.
  destruct (tally_matches_returns _ dd_empty Hscores) as [standings ->].
  by eexists.
Qed.

Lemma elem_of_sort_table r table : r ∈ sort_table table <-> r ∈ table.
Proof. unfold sort_table. by rewrite stable_sort_perm. Qed.

Lemma league_table_row competition season db log c s table status r :
  league_table competition season db = (log, Ret (TableBody c s table, status)) ->
  r ∈ table ->
  r = table_row (row_team_id r,
                 team_record (row_team_id r) (find_matches db (Scope (Some c) (Some s)))).
Proof.
  intros H Hr. apply league_table_inv in H as (standings & Hst & -> & _).
  apply elem_of_sort_table, list_elem_of_fmap in Hr as ([team row] & -> & Hitem).
  apply dd_items_lookup in Hitem. simpl.
  unfold team_record.
  replace new_standing with (row_of team (@dd_empty TeamStanding)) by reflexivity.
  rewrite <- (tally_matches_row _ _ _ team Hst). unfold row_of. by rewrite Hitem.
Qed.

Lemma league_table_sample :
  league_table (Some "PL") (Some "2024") sample_db
  = ([FindMatches (Scope (Some "PL") (Some "2024"))],
     Ret (TableBody "PL" "2024" sample_table, 200)).
Proof. vm_compute. reflexivity. Qed.

(** C3.  The standings builder.  A match with both team ids and extracted
    goals [(hg, ag)] is tallied by [tally_match]; for two different teams
    the home row receives one match played, [hg] goals for, [ag] against
    and a win, draw or loss as [hg] compares with [ag], the away row the
    mirror image, and no other row changes.  Every row of a returned
    table is the tally of its team over the matches found, with
    goal_difference = goals_for - goals_against and points = wins*3 +
    draws.  The two sample matches give TeamX 2 played, 1 win, 1 draw,
    5:3 goals, +2 and 4 points, ranked above TeamY with 1 point. *)
Theorem league_table_accumulates :
  (forall m rest standings home away hg ag,
      home_team_id m = Some home ->
      away_team_id m = Some away ->
      parse_score (score_or_empty m) = Ret (hg, ag) ->
      tally_matches (m :: rest) standings
      = tally_matches rest (tally_match standings home away hg ag)) /\
  (forall standings home away hg ag,
      home <> away ->
      dd_map (tally_match standings home away hg ag) !! home
      = Some (after_match (row_of home standings) hg ag) /\
      dd_map (tally_match standings home away hg ag) !! away
      = Some (after_match (row_of away standings) ag hg) /\
      forall team, team <> home -> team <> away ->
        dd_map (tally_match standings home away hg ag) !! team
        = dd_map standings !! team) /\
  (forall competition season db log c s table status,
      league_table competition season db = (log, Ret (TableBody c s table, status)) ->
      forall r, r ∈ table ->
        r = table_row (row_team_id r,
                       team_record (row_team_id r)
                         (find_matches db (Scope (Some c) (Some s)))) /\
        row_goal_difference r = row_goals_for r - row_goals_against r /\
        row_points r = row_wins r * 3 + row_draws r) /\
  league_table (Some "PL") (Some "2024") sample_db
  = ([FindMatches (Scope (Some "PL") (Some "2024"))],
     Ret (TableBody "PL" "2024" sample_table, 200)).
Proof.
  split; [|split; [|split]].
  - intros. by apply tally_matches_cons.
  - intros standings home away hg ag Hne. split; [|split].
    + rewrite tally_match_present by auto. f_equal.
      rewrite tally_match_row. unfold side_share.
      rewrite (decide_True (P := home = home)) by done.
      by rewrite (decide_False (P := home = away)).
    + rewrite tally_match_present by auto. f_equal.
      rewrite tally_match_row. unfold side_share.
      rewrite (decide_False (P := away = home)) by done.
      by rewrite (decide_True (P := away = away)).
    + intros. by apply tally_match_other.
  - intros competition season db log c s table status H r Hr.
    pose proof (league_table_row _ _ _ _ _ _ _ _ _ H Hr) as Hrow.
    split; [done|]. rewrite Hrow. split; reflexivity.
  - exact league_table_sample.
Qed.

Lemma league_table_accumulates_witness :
  dd_map (tally_match dd_empty "TeamX" "TeamY" 3 1) !! "TeamX"
  = Some {| played := 1; wins := 1; draws := 0; losses := 0;
            goals_for := 3; goals_against := 1 |} /\
  dd_map (tally_match dd_empty "TeamX" "TeamY" 3 1) !! "TeamY"
  = Some {| played := 1; wins := 0; draws := 0; losses := 1;
            goals_for := 1; goals_against := 3 |} /\
  Forall (fun r =>
            row_goal_difference r = row_goals_for r - row_goals_against r /\
            row_points r = row_wins r * 3 + row_draws r) sample_table.
Proof.
  destruct league_table_accumulates as (_ & Hstep & Hrows & Hsample).
  destruct (Hstep dd_empty "TeamX" "TeamY" 3 1) as (Hx & Hy & _); [discriminate|].
  split; [exact Hx|]. split; [exact Hy|].
  apply Forall_forall. intros r Hr. eapply Hrows; [exact Hsample | exact Hr].
Defined.

(** ** The played identity *)

Lemma new_standing_balanced : balanced new_standing.
Proof. reflexivity. Qed.

Lemma after_match_balanced r scored conceded :
  balanced r -> balanced (after_match r scored conceded).
Proof.
  unfold balanced, after_match; simpl. intros ->.
  rewrite Z.gtb_ltb.
  destruct (Z.ltb_spec conceded scored), (Z.ltb_spec scored conceded),
    (Z.eqb_spec scored conceded); lia.
Qed.

Lemma side_share_balanced side scored conceded team r :
  balanced r -> balanced (side_share side scored conceded team r).
Proof. unfold side_share. case_decide; auto using after_match_balanced. Qed.

Lemma row_of_balanced team standings :
  standings_balanced standings -> balanced (row_of team standings).
Proof.
  intros H. unfold row_of.
  destruct (dd_map standings !! team) as [r|] eqn:E; simpl;
    [by eapply H | apply new_standing_balanced].
Qed.

Lemma tally_match_balanced standings home away hg ag :
  standings_balanced standings ->
  standings_balanced (tally_match standings home away hg ag).
Proof.
  intros H team r Hr.
  assert (r = row_of team (tally_match standings home away hg ag)) as ->
    by (unfold row_of; by rewrite Hr).
  rewrite tally_match_row.
  by apply side_share_balanced, side_share_balanced, row_of_balanced.
Qed.

Lemma tally_matches_balanced matches : forall standings standings',
  standings_balanced standings ->
  tally_matches matches standings = Ret standings' ->
  standings_balanced standings'.
Proof.
  induction matches as [|m rest IH]; intros standings standings' Hb; simpl.
  - by intros [= <-].
  - destruct (parse_score (score_or_empty m)) as [[hg ag]|e]; simpl; [|discriminate].
    destruct (home_team_id m) as [home|], (away_team_id m) as [away|];
      eauto using tally_match_balanced.
Qed.

(** C10.  The identity played = wins + draws + losses is an invariant of
    the accumulation: the tally of a match keeps it for every row, and so
    it holds of every row of every table that [league_table] returns. *)
Theorem league_table_balanced :
  (forall standings home away hg ag,
      standings_balanced standings ->
      standings_balanced (tally_match standings home away hg ag)) /\
  (forall competition season db log c s table status,
      league_table competition season db = (log, Ret (TableBody c s table, status)) ->
      forall r, r ∈ table -> row_played r = row_wins r + row_draws r + row_losses r).
Proof.
  split; [apply tally_match_balanced|].
  intros competition season db log c s table status H r Hr.
  apply league_table_inv in H as (standings & Hst & -> & _).
  apply elem_of_sort_table, list_elem_of_fmap in Hr as ([team row] & -> & Hitem).
  apply dd_items_lookup in Hitem.
  eapply (tally_matches_balanced _ dd_empty) in Hst; [by apply (Hst team)|].
  intros t r0. unfold dd_empty; simpl. by rewrite lookup_empty.
Qed.

Lemma league_table_balanced_witness :
  standings_balanced (tally_match dd_empty "TeamX" "TeamY" 3 1) /\
  Forall (fun r => row_played r = row_wins r + row_draws r + row_losses r) sample_table.
Proof.
  destruct league_table_balanced as [Hstep H]. split.
  - apply Hstep. intros team r. unfold dd_empty; simpl. by rewrite lookup_empty.
  - apply Forall_forall. exact (H _ _ _ _ _ _ _ _ league_table_sample).
Defined.

(** ** The order of the table *)

Lemma StronglySorted_weaken {A : Type} (R R' : A -> A -> Prop) l :
  (forall x y, R x y -> R' x y) -> StronglySorted R l -> StronglySorted R' l.
Proof.
  intros HR. induction 1 as [|x l Hl IH Hx]; constructor; [done|].
  eapply Forall_impl; [exact Hx | auto].
Qed.

Lemma table_key_le_ranked x y :
  tuple3_le (table_key x) (table_key y) = true <-> ranked_before x y.
Proof. unfold table_key, ranked_before. rewrite tuple3_le_spec. lia. Qed.

Lemma table_key_ties x y :
  ties (fun a b => tuple3_le (table_key a) (table_key b)) x y = fully_tied x y.
Proof.
  unfold ties. apply eq_true_iff_eq. rewrite tuple3_ties.
  unfold fully_tied, table_key. rewrite !andb_true_iff, !Z.eqb_eq.
  split; [intros [= ? ? ?]; lia | intros [[? ?] ?]; f_equal; [f_equal|]; lia].
Qed.

Lemma sort_table_sorted table : StronglySorted ranked_before (sort_table table).
Proof.
  unfold sort_table.
  eapply StronglySorted_weaken; [intros x y; apply table_key_le_ranked|].
  apply stable_sort_sorted.
  - intros x y. apply tuple3_le_total.
  - intros x y z. apply tuple3_le_trans.
Qed.

Lemma sort_table_stable r table :
  List.filter (fully_tied r) (sort_table table) = List.filter (fully_tied r) table.
Proof.
  unfold sort_table.
  rewrite <- !(List.filter_ext _ _ (table_key_ties r)).
  apply stable_sort_stable. intros x y z. apply tuple3_le_trans.
Qed.

(** C4.  The table that [league_table] returns is the list of rows of
    the standings, in the order the teams were first seen, rearranged so
    that every row is ranked before all later rows: more points, or equal
    points and a better goal difference, or both equal and at least as
    many goals scored.  The rearrangement is stable: the rows tied on all
    three keys with any given row keep their relative order. *)
Theorem league_table_sorted_stable competition season db log c s table status :
  league_table competition season db = (log, Ret (TableBody c s table, status)) ->
  exists standings,
    tally_matches (find_matches db (Scope (Some c) (Some s))) dd_empty = Ret standings /\
    StronglySorted ranked_before table /\
    table ≡ₚ table_row <$> dd_items standings /\
    forall r, List.filter (fully_tied r) table
              = List.filter (fully_tied r) (table_row <$> dd_items standings).
Proof.
  intros H. apply league_table_inv in H as (standings & Hst & -> & _).
  exists standings. split; [done|]. split; [apply sort_table_sorted|].
  split; [apply stable_sort_perm | intros r; apply sort_table_stable].
Qed.

Lemma league_table_sorted_stable_witness :
  exists table,
    league_table (Some "PL") (Some "2024") tied_db
    = ([FindMatches (Scope (Some "PL") (Some "2024"))], Ret (TableBody "PL" "2024" table, 200)) /\
    row_team_id <$> table = ["E"; "B"; "C"; "D"; "A"] /\
    StronglySorted ranked_before table.
Proof.
  eexists. split; [vm_compute; reflexivity|]. split; [reflexivity|].
  edestruct (league_table_sorted_stable (Some "PL") (Some "2024") tied_db)
    as (standings & _ & Hsorted & _); [vm_compute; reflexivity|].
  exact Hsorted.
Defined.

(** ** Streaks *)

Lemma longest_streak_scan sequence target :
  longest_streak sequence target = fst (streak_scan target sequence).
Proof. reflexivity. Qed.

Lemma streak_scan_snoc target sequence value :
  streak_scan target (sequence ++ [value]) =
  let '(longest, current) := streak_scan target sequence in
  if String.eqb value target
  then (Z.max longest (current + 1), current + 1)
  else (longest, 0).
Proof.
  unfold streak_scan. rewrite fold_left_app. simpl.
  by destruct (fold_left _ sequence (0, 0)).
Qed.

Lemma replicate_snoc_inv {A : Type} (l pre : list A) (x y : A) k :
  l ++ [x] = pre ++ replicate k y ->
  k = 0%nat \/ (exists k', k = S k' /\ x = y /\ l = pre ++ replicate k' y).
Proof.
  intros H. destruct k as [|k']; [by left|]. right. exists k'. split; [done|].
  rewrite replicate_S_end, app_assoc in H. by apply app_inj_tail in H as [-> ->].
Qed.

(** The state of the scan: [current] is the length of the run of the
    target that ends the prefix, [longest] that of its longest run. *)
Lemma streak_scan_spec target sequence :
  let '(longest, current) := streak_scan target sequence in
  0 <= current <= longest /\
  (exists pre, sequence = pre ++ replicate (Z.to_nat current) target) /\
  (forall pre k, sequence = pre ++ replicate k target -> Z.of_nat k <= current) /\
  (exists pre post, sequence = pre ++ replicate (Z.to_nat longest) target ++ post) /\
  (forall pre k post, sequence = pre ++ replicate k target ++ post -> Z.of_nat k <= longest).
Proof.
  induction sequence as [|value sequence IH] using rev_ind.
  - simpl. split; [lia|]. split; [by exists []|]. split.
    + intros pre k H. symmetry in H. apply app_eq_nil in H as [_ H].
      destruct k; [lia | discriminate].
    + split; [by exists [], []|]. intros pre k post H.
      symmetry in H. apply app_eq_nil in H as [_ H]. apply app_eq_nil in H as [H _].
      destruct k; [lia | discriminate].
  - rewrite streak_scan_snoc.
    destruct (streak_scan target sequence) as [longest current].
    destruct IH as (Hb & [spre Hs] & Hsmax & (lpre & lpost & Hl) & Hlmax).
    assert (forall pre k post, sequence ++ [value] = pre ++ replicate k target ++ post ->
              post <> [] -> Z.of_nat k <= longest) as Hinner.
    { intros pre k post H Hpost.
      destruct post as [|y post _] using rev_ind; [done|].
      rewrite !app_assoc in H. apply app_inj_tail in H as [H _].
      rewrite <- app_assoc in H. by apply Hlmax in H. }
    destruct (String.eqb_spec value target) as [->|Hne].
    + split; [lia|]. split; [|split; [|split]].
      * exists spre. rewrite Z2Nat.inj_add, Nat.add_1_r, replicate_S_end by lia.
        rewrite app_assoc. by rewrite <- Hs.
      * intros pre k H.
        apply replicate_snoc_inv in H as [->|(k' & -> & _ & H)]; [lia|].
        apply Hsmax in H. lia.
      * destruct (Z.max_spec longest (current + 1)) as [[_ ->]|[_ ->]].
        -- exists spre, []. rewrite Z2Nat.inj_add, Nat.add_1_r, replicate_S_end by lia.
           rewrite app_nil_r, app_assoc. by rewrite <- Hs.
        -- exists lpre, (lpost ++ [target]). rewrite !app_assoc.
           f_equal. rewrite <- app_assoc. exact Hl.
      * intros pre k post H. destruct post as [|y post].
        -- rewrite app_nil_r in H.
           apply replicate_snoc_inv in H as [->|(k' & -> & _ & H)]; [lia|].
           apply Hsmax in H. lia.
        -- apply Hinner in H; [lia | done].
    + split; [lia|]. split; [|split; [|split]].
      * exists (sequence ++ [value]). simpl. by rewrite app_nil_r.
      * intros pre k H.
        apply replicate_snoc_inv in H as [->|(k' & -> & ? & _)]; [lia | done].
      * exists lpre, (lpost ++ [value]). rewrite !app_assoc.
        f_equal. rewrite <- app_assoc. exact Hl.
      * intros pre k post H. destruct post as [|y post].
        -- rewrite app_nil_r in H.
           apply replicate_snoc_inv in H as [->|(k' & -> & ? & _)]; [lia | done].
        -- apply Hinner in H; [lia | done].
Qed.

Lemma append_result_results team_results team symbol t :
  results_of t (append_result team_results team symbol) =
  if decide (t = team) then results_of t team_results ++ [symbol]
  else results_of t team_results.
Proof.
  unfold results_of, append_result.
  rewrite dd_update_lookup, dd_touch_lookup.
  repeat case_decide; simplify_eq; destruct_lookups; done.
Qed.

(** C5.  [longest_streak] returns the length of the longest run of
    consecutive occurrences of the target: the sequence contains a run of
    that length, and contains no longer one.  For the type [clean_sheet]
    a match appends to the home team's sequence "C" when the away side
    scored no goal and "N" otherwise, and to the away team's sequence "C"
    when the home side scored none and "N" otherwise.  The sequence
    C, N, N has longest streak 1, and the three example matches give
    team A that sequence and that streak. *)
Theorem longest_streak_longest_run :
  (forall sequence target,
      0 <= longest_streak sequence target /\
      (exists pre post,
          sequence = pre ++ replicate (Z.to_nat (longest_streak sequence target)) target ++ post) /\
      (forall pre k post,
          sequence = pre ++ replicate k target ++ post ->
          Z.of_nat k <= longest_streak sequence target)) /\
  (forall team_results home away hg ag,
      home <> away ->
      results_of home (record_match "clean_sheet" team_results home away hg ag)
      = results_of home team_results ++ [if ag =? 0 then "C" else "N"] /\
      results_of away (record_match "clean_sheet" team_results home away hg ag)
      = results_of away team_results ++ [if hg =? 0 then "C" else "N"]) /\
  longest_streak ["C"; "N"; "N"] "C" = 1 /\
  (dd_items <$> record_matches "clean_sheet"
                  (cursor_sort_date 1 (find_matches streak_db (Scope None None))) dd_empty)
  = Ret [("A", ["C"; "N"; "N"]); ("B", ["N"; "N"; "C"])] /\
  streaks None None (Some "clean_sheet") streak_db
  = ([FindMatches (Scope None None)],
     Ret (StreaksBody "clean_sheet"
            [ {| streak_team_id := "A"; streak := 1 |};
              {| streak_team_id := "B"; streak := 1 |} ], 200)).
Proof.
  split; [|split; [|split; [|split]]].
  - intros sequence target. rewrite longest_streak_scan.
    pose proof (streak_scan_spec target sequence) as H.
    destruct (streak_scan target sequence) as [longest current]; simpl.
    destruct H as (Hb & _ & _ & Hrun & Hmax). split; [lia | by split].
  - intros team_results home away hg ag Hne. unfold record_match; simpl.
    rewrite !append_result_results.
    rewrite (decide_True (P := home = home)), (decide_False (P := home = away)),
      (decide_True (P := away = away)), (decide_False (P := away = home)) by done.
    done.
  - reflexivity.
  - vm_compute. reflexivity.
  - vm_compute. reflexivity.
Qed.

Lemma longest_streak_longest_run_witness :
  Z.of_nat 2 <= longest_streak ["L"; "W"; "W"; "D"; "W"] "W" /\
  results_of "A" (record_match "clean_sheet" dd_empty "A" "B" 2 0) = ["C"] /\
  results_of "B" (record_match "clean_sheet" dd_empty "A" "B" 2 0) = ["N"].
Proof.
  destruct longest_streak_longest_run as (Hrun & Hsym & _).
  split.
  - destruct (Hrun ["L"; "W"; "W"; "D"; "W"] "W") as (_ & _ & Hmax).
    apply (Hmax ["L"] 2%nat ["D"; "W"]). reflexivity.
  - apply (Hsym dd_empty "A" "B" 2 0). discriminate.
Defined.

(** ** Top scorers *)

Lemma scoring_player_qualifying event player :
  scoring_player event = Some player <-> qualifying event player.
Proof.
  unfold scoring_player, qualifying, given.
  destruct (ev_type event) as [t|]; [|split; [done | by intros [? _]]].
  destruct (String.eqb_spec t "goal") as [->|Ht];
    [|split; [done | intros [[= ?] _]; done]].
  destruct (ev_player_id event) as [p|]; [|split; [done | by intros (_ & ? & _)]].
  destruct (String.eqb_spec p "") as [->|Hp].
  - split; [done | intros (_ & [= <-] & ?); done].
  - split; [intros [= <-]; done | intros (_ & [= <-] & _); done].
Qed.

Lemma count_goal_goals goal_counts scorer player :
  goals_of player (count_goal goal_counts scorer) =
  goals_of player goal_counts + (if decide (scorer = player) then 1 else 0).
Proof.
  unfold goals_of, count_goal. rewrite dd_update_lookup, dd_touch_lookup.
  case_decide; simplify_eq; destruct_lookups; simpl; lia.
Qed.

Lemma count_event_goals goal_counts event player :
  goals_of player (count_event goal_counts event) =
  goals_of player goal_counts + (if decide (qualifying event player) then 1 else 0).
Proof.
  unfold count_event.
  destruct (scoring_player event) as [scorer|] eqn:E.
  - rewrite count_goal_goals. apply scoring_player_qualifying in E.
    destruct (decide (scorer = player)) as [->|Hne].
    + by rewrite decide_True.
    + rewrite decide_False; [done|].
      intros (_ & E2 & _). destruct E as (_ & E1 & _). congruence.
  - rewrite decide_False; [lia|]. intros Hq.
    apply scoring_player_qualifying in Hq. congruence.
Qed.

Lemma count_events_goals evs : forall goal_counts player,
  goals_of player (fold_left count_event evs goal_counts) =
  goals_of player goal_counts
  + Z.of_nat (length (filter (fun e => qualifying e player) evs)).
Proof.
  induction evs as [|e evs IH]; intros goal_counts player; simpl; [lia|].
  rewrite IH, count_event_goals, filter_cons.
  case_decide; simpl; lia.
Qed.

Lemma count_goals_flat matches : forall goal_counts,
  fold_left (fun goal_counts m => fold_left count_event (events m) goal_counts)
            matches goal_counts
  = fold_left count_event (all_events matches) goal_counts.
Proof.
  unfold all_events.
  induction matches as [|m rest IH]; intros goal_counts; simpl; [done|].
  by rewrite fold_left_app, IH.
Qed.

Lemma count_events_none evs goal_counts :
  Forall (fun e => forall player, ~ qualifying e player) evs ->
  fold_left count_event evs goal_counts = goal_counts.
Proof.
  intros H. revert goal_counts.
  induction H as [|e evs He _ IH]; intros goal_counts; simpl; [done|].
  rewrite IH. unfold count_event.
  destruct (scoring_player e) as [p|] eqn:E; [|done].
  apply scoring_player_qualifying in E. by destruct (He p).
Qed.

Lemma slice_to_subseteq {A : Type} n (l : list A) : slice_to n l ⊆ l.
Proof. unfold slice_to. destruct (0 <=? n); apply subseteq_take. Qed.

Lemma top_scorers_goals competition season limit db log leaders status l :
  top_scorers competition season limit db = (log, Ret (LeadersBody leaders, status)) ->
  l ∈ leaders ->
  leader_goals l
  = goals_of (leader_player_id l)
      (count_goals (find_matches db (scope_query competition season))).
Proof.
  unfold top_scorers. destruct (limit_arg limit) as [n|e]; [|discriminate].
  destruct (dd_is_empty _).
  - intros [= _ <- _] Hl. by apply elem_of_nil in Hl.
  - intros [= _ <- _] Hl.
    apply slice_to_subseteq in Hl. unfold sort_by_key_reverse in Hl.
    rewrite stable_sort_perm in Hl.
    apply list_elem_of_fmap in Hl as ([player goals] & -> & Hitem).
    apply dd_items_lookup in Hitem. simpl. unfold goals_of. by rewrite Hitem.
Qed.

(** C6.  The leaderboard counter.  After the scan the count of a player
    is the number of scanned events whose type is "goal" and whose
    player id is that player and not empty, and the goals of every entry
    of a returned leaderboard are that number.  When no scanned event
    qualifies the handler answers [{"leaders": []}] after the one read of
    the matches: the players are not looked up. *)
Theorem top_scorers_counts competition season limit db n :
  limit_arg limit = Ret n ->
  (forall player,
      goals_of player (count_goals (find_matches db (scope_query competition season)))
      = Z.of_nat (length (filter (fun e => qualifying e player)
                            (all_events (find_matches db (scope_query competition season)))))) /\
  (Forall (fun e => forall player, ~ qualifying e player)
          (all_events (find_matches db (scope_query competition season))) ->
   top_scorers competition season limit db
   = ([FindMatches (scope_query competition season)], Ret (LeadersBody [], 200))) /\
  (forall log leaders status,
      top_scorers competition season limit db = (log, Ret (LeadersBody leaders, status)) ->
      Forall (fun l =>
                leader_goals l
                = Z.of_nat (length (filter (fun e => qualifying e (leader_player_id l))
                                      (all_events (find_matches db
                                                     (scope_query competition season))))))
             leaders).
Proof.
  intros Hlimit.
  assert (forall player,
      goals_of player (count_goals (find_matches db (scope_query competition season)))
      = Z.of_nat (length (filter (fun e => qualifying e player)
                            (all_events (find_matches db (scope_query competition season))))))
    as Hcount.
  { intros player. unfold count_goals.
    rewrite count_goals_flat, count_events_goals. unfold goals_of, dd_empty; simpl.
    rewrite lookup_empty. simpl. lia. }
  split; [exact Hcount|]. split.
  - intros Hnone. unfold top_scorers, count_goals. rewrite Hlimit.
    rewrite count_goals_flat, count_events_none by done. reflexivity.
  - intros log leaders status H. apply Forall_forall. intros l Hl.
    rewrite <- Hcount. by eapply top_scorers_goals.
Qed.

Lemma top_scorers_counts_witness :
  goals_of "p1" (count_goals (find_matches scorers_db (scope_query None None))) = 2 /\
  top_scorers (Some "PL") None (Some "10") sample_db
  = ([FindMatches (Scope (Some "PL") None)], Ret (LeadersBody [], 200)) /\
  top_scorers None None None scorers_db
  = ([FindMatches (Scope None None); FindPlayers ["p2"; "p1"]],
     Ret (LeadersBody
            [ {| leader_player_id := "p1"; leader_name := Some "Ada"; leader_goals := 2 |};
              {| leader_player_id := "p2"; leader_name := None; leader_goals := 1 |} ], 200)).
Proof.
  split; [|split].
  - destruct (top_scorers_counts None None None scorers_db 20 eq_refl) as (H & _ & _).
    rewrite H. vm_compute. reflexivity.
  - destruct (top_scorers_counts (Some "PL") None (Some "10") sample_db 10 eq_refl)
      as (_ & H & _).
    apply H. vm_compute. repeat constructor.
  - vm_compute. reflexivity.
Defined.

(** ** Matches without a team id *)

Lemma record_matches_skip streak_type m rest team_results :
  home_team_id m = None \/ away_team_id m = None ->
  returns (parse_score (score_or_empty m)) ->
  record_matches streak_type (m :: rest) team_results
  = record_matches streak_type rest team_results.
Proof.
  intros Hm [[hg ag] Hs]. simpl. rewrite Hs. simpl.
  destruct Hm as [-> | ->]; [done|]. by destruct (home_team_id m).
Qed.

Lemma record_matches_returns streak_type matches team_results :
  Forall (fun m => returns (parse_score (score_or_empty m))) matches ->
  returns (record_matches streak_type matches team_results).
Proof.
  intros H. revert team_results.
  induction H as [|m rest [[hg ag] Hs] _ IH]; intros team_results; simpl.
  - apply returns_Ret.
  - rewrite Hs; simpl. destruct (home_team_id m), (away_team_id m); apply IH.
Qed.

Example league_table_skips_teamless :
  league_table (Some "PL") (Some "2024")
    {| matches_coll := [first_leg; teamless_ok; second_leg]; players_coll := []; single_batch := whole_result |}
  = league_table (Some "PL") (Some "2024") sample_db.
Proof. vm_compute. reflexivity. Qed.

(** C7.  A match without a home team id is not always skipped in
    silence.  Both handlers extract the score before they test the team
    ids, so the teamless match whose score is [{"fulltime": {"home": "x",
    "away": 1}}] makes [league_table] and [streaks] raise [ValueError];
    the two well-formed matches stored after it are never tallied. *)
Theorem teamless_match_raises :
  home_team_id teamless_match = None /\
  league_table (Some "PL") (Some "2024") teamless_db
  = ([FindMatches (Scope (Some "PL") (Some "2024"))], Raise ValueError) /\
  streaks None None (Some "win") teamless_db
  = ([FindMatches (Scope None None)], Raise ValueError) /\
  league_table (Some "PL") (Some "2024") sample_db
  = ([FindMatches (Scope (Some "PL") (Some "2024"))],
     Ret (TableBody "PL" "2024" sample_table, 200)).
Proof. repeat split; vm_compute; reflexivity. Qed.

(** ** Validation of the streak type *)

Lemma streaks_invalid competition season streak_type db :
  allowed_streak_type streak_type = false ->
  streaks competition season streak_type db
  = ([], Ret (ErrorBody "VALIDATION_ERROR" "type must be win, loss, or clean_sheet", 422)).
Proof.
  intros H. unfold streaks. destruct streak_type as [type|]; [|done]. by rewrite H.
Qed.

Lemma streaks_valid competition season type db :
  allowed_streak_type (Some type) = true ->
  streaks competition season (Some type) db
  = ([FindMatches (scope_query competition season)],
     team_results ← record_matches type
       (cursor_sort_date 1 (find_matches db (scope_query competition season))) dd_empty;
     Ret (StreaksBody type
            (sort_by_key_reverse streak (streak_entry type <$> dd_items team_results)), 200)).
Proof. intros H. unfold streaks. by rewrite H. Qed.

(** C8.  The streak handler answers 422 VALIDATION_ERROR exactly when
    the type is not win, loss or clean_sheet, and then reads nothing.
    With an allowed type it reads the matches once and never answers an
    error body; it answers [{type, streaks}] when every score in scope
    can be extracted, but a score such as [{"fulltime": {"home": "x",
    "away": 1}}] makes it raise [ValueError] instead. *)
Theorem streaks_validation :
  (forall competition season streak_type db,
      allowed_streak_type streak_type = false ->
      streaks competition season streak_type db
      = ([], Ret (ErrorBody "VALIDATION_ERROR" "type must be win, loss, or clean_sheet", 422))) /\
  (forall competition season streak_type db log code message status,
      streaks competition season streak_type db = (log, Ret (ErrorBody code message, status)) ->
      allowed_streak_type streak_type = false /\ log = [] /\
      code = "VALIDATION_ERROR" /\ status = 422) /\
  (forall competition season type db,
      allowed_streak_type (Some type) = true ->
      Forall (fun m => returns (parse_score (score_or_empty m)))
             (find_matches db (scope_query competition season)) ->
      exists streaks_data,
        streaks competition season (Some type) db
        = ([FindMatches (scope_query competition season)],
           Ret (StreaksBody type streaks_data, 200))) /\
  streaks None None (Some "win") malformed_db
  = ([FindMatches (Scope None None)], Raise ValueError).
Proof.
  split; [|split; [|split]].
  - apply streaks_invalid.
  - intros competition season streak_type db log code message status H.
    destruct (allowed_streak_type streak_type) eqn:E.
    + destruct streak_type as [type|]; [|done].
      rewrite streaks_valid in H by done. injection H as _ H.
      destruct (record_matches _ _ _); simpl in H; discriminate.
    + rewrite streaks_invalid in H by done. by injection H as <- <- _ <-.
  - intros competition season type db Hallowed Hscores.
    rewrite streaks_valid by done.
    destruct (record_matches_returns type
                (cursor_sort_date 1 (find_matches db (scope_query competition season)))
                dd_empty) as [team_results ->]; [|by eexists].
    unfold cursor_sort_date; simpl. by rewrite stable_sort_perm.
  - vm_compute. reflexivity.
Qed.

Lemma streaks_validation_witness :
  streaks None None (Some "draw") sample_db
  = ([], Ret (ErrorBody "VALIDATION_ERROR" "type must be win, loss, or clean_sheet", 422)) /\
  allowed_streak_type None = false /\
  exists streaks_data,
    streaks None None (Some "loss") sample_db
    = ([FindMatches (Scope None None)], Ret (StreaksBody "loss" streaks_data, 200)).
Proof.
  destruct streaks_validation as (Hinvalid & Hiff & Hvalid & _).
  split; [by apply Hinvalid|]. split.
  - by destruct (Hiff None None None sample_db [] "VALIDATION_ERROR"
                   "type must be win, loss, or clean_sheet" 422 eq_refl) as [H _].
  - apply (Hvalid None None "loss" sample_db eq_refl).
    repeat constructor; vm_compute; by eexists.
Defined.

(** ** Head to head *)

Lemma field_is_Some field wanted :
  field_is field (Some wanted) = bool_decide (field = Some wanted).
Proof.
  unfold field_is. destruct field as [x|].
  - destruct (String.eqb_spec x wanted) as [->|Hne].
    + by rewrite bool_decide_eq_true_2.
    + rewrite bool_decide_eq_false_2; [done | congruence].
  - by rewrite bool_decide_eq_false_2.
Qed.

Lemma matches_query_between a b m :
  matches_query (Versus a b) m = bool_decide (between a b m).
Proof.
  unfold matches_query. rewrite !field_is_Some.
  apply eq_true_iff_eq.
  rewrite orb_true_iff, !andb_true_iff, !bool_decide_eq_true. reflexivity.
Qed.

Lemma filter_bool_decide {A : Type} (P : A -> Prop) `{H : !forall x, Decision (P x)}
    (l : list A) :
  List.filter (fun x => bool_decide (P x)) l = filter P l.
Proof.
  induction l as [|x l IH]; simpl; [done|].
  rewrite filter_cons, IH. unfold bool_decide, decide. by destruct (H x).
Qed.

Lemma find_matches_between db a b :
  find_matches db (Versus a b) = filter (between a b) (matches_coll db).
Proof.
  unfold find_matches. rewrite <- filter_bool_decide.
  apply List.filter_ext. intros m. apply matches_query_between.
Qed.

Lemma date_le_newer x y : date_le (date y) (date x) = true <-> newer_or_same x y.
Proof.
  unfold date_le, newer_or_same.
  destruct (date x), (date y); rewrite ?Z.leb_le; intuition congruence.
Qed.

Lemma cursor_sort_newest_first docs :
  cursor_sort_date (-1) docs ≡ₚ docs /\
  StronglySorted newer_or_same (cursor_sort_date (-1) docs).
Proof.
  unfold cursor_sort_date; simpl. split; [apply stable_sort_perm|].
  eapply StronglySorted_weaken; [intros x y; apply date_le_newer|].
  apply stable_sort_sorted.
  - intros x y. apply date_le_total.
  - intros x y z H1 H2. by eapply date_le_trans.
Qed.

Lemma serialize_match_fields doc : (serialize_match doc).*1 = public_fields.
Proof. reflexivity. Qed.

(** C9, as stated, fails for a limit of 0: the cursor treats it as no
    limit, and both sample matches are returned instead of none. *)
Lemma head_to_head_limit_zero_cex :
  head_to_head (Some "TeamX") (Some "TeamY") (Some "0") sample_db
  = ([FindMatches (Versus "TeamX" "TeamY")],
     Ret (H2HBody "TeamX" "TeamY" (serialize_match <$> [second_leg; first_leg]), 200)) /\
  serialize_match <$> [second_leg; first_leg]
  <> serialize_match <$> take (Z.to_nat 0) [second_leg; first_leg].
Proof. split; [vm_compute; reflexivity | discriminate]. Qed.

(** C9, amended.  For two team identifiers that are both given and a
    limit that parses to an integer from 0 to 2^63 - 1, the head-to-head
    handler reads the matches once and answers the matches between the
    two teams in either orientation, newest first, each projected to the
    seven public fields; the list is cut to its first [limit] entries
    when the limit is positive and not at all when it is 0.  No score is
    extracted and nothing is tallied: the answer is there whatever the
    scores hold. *)
Theorem head_to_head_summary team_a team_b limit db a b n :
  given team_a = Some a ->
  given team_b = Some b ->
  limit_arg limit = Ret n ->
  0 <= n < INT64_BOUND ->
  exists newest_first,
    newest_first ≡ₚ filter (between a b) (matches_coll db) /\
    StronglySorted newer_or_same newest_first /\
    head_to_head team_a team_b limit db
    = ([FindMatches (Versus a b)],
       Ret (H2HBody a b
              (serialize_match <$>
                 (if decide (n = 0) then newest_first
                  else take (Z.to_nat n) newest_first)), 200)) /\
    Forall (fun entry => entry.*1 = public_fields) (serialize_match <$> newest_first).
Proof.
  intros Ha Hb Hn Hrange.
  exists (cursor_sort_date (-1) (find_matches db (Versus a b))).
  destruct (cursor_sort_newest_first (find_matches db (Versus a b))) as [Hperm Hsorted].
  split; [by rewrite Hperm, find_matches_between|].
  split; [done|]. split.
  - unfold head_to_head. rewrite Hn, Ha, Hb. unfold cursor_limit, jsonify.
    destruct (Z.leb_spec INT64_BOUND (Z.abs n)) as [Hbig|_]; [lia|].
    destruct (Z.eqb_spec n 0) as [->|Hne]; [done|].
    rewrite decide_False by done.
    by destruct (Z.ltb_spec 0 n) as [_|Hneg]; [|lia].
  - apply Forall_fmap, Forall_forall. intros doc _. apply serialize_match_fields.
Qed.

Lemma head_to_head_summary_witness :
  exists newest_first,
    newest_first ≡ₚ filter (between "TeamX" "TeamY") (matches_coll malformed_db) /\
    StronglySorted newer_or_same newest_first /\
    head_to_head (Some "TeamX") (Some "TeamY") (Some "1") malformed_db
    = ([FindMatches (Versus "TeamX" "TeamY")],
       Ret (H2HBody "TeamX" "TeamY" (serialize_match <$> take 1 newest_first), 200)).
Proof.
  destruct (head_to_head_summary (Some "TeamX") (Some "TeamY") (Some "1") malformed_db
              "TeamX" "TeamY" 1 eq_refl eq_refl eq_refl)
    as (newest_first & Hperm & Hsorted & Hanswer & _); [by vm_compute|].
  exists newest_first. split; [exact Hperm|]. split; [exact Hsorted|].
  exact Hanswer.
Defined.

Example head_to_head_newest :
  head_to_head (Some "TeamX") (Some "TeamY") (Some "1") malformed_db
  = ([FindMatches (Versus "TeamX" "TeamY")],
     Ret (H2HBody "TeamX" "TeamY" [serialize_match malformed_match], 200)).
Proof. vm_compute. reflexivity. Qed.

(** Outside that range.  A limit from 2^63 on, of either sign, is refused
    by the driver before the store is read; a smaller negative limit
    answers what the first batch holds, which is among the first
    [|limit|] matches. *)
Lemma head_to_head_limit_outside team_a team_b limit db a b n :
  given team_a = Some a ->
  given team_b = Some b ->
  limit_arg limit = Ret n ->
  (INT64_BOUND <= Z.abs n ->
   head_to_head team_a team_b limit db = ([], Raise OverflowError)) /\
  (- INT64_BOUND < n < 0 ->
   exists k,
     (k <= Z.to_nat (- n))%nat /\
     head_to_head team_a team_b limit db
     = ([FindMatches (Versus a b)],
        Ret (H2HBody a b
               (serialize_match <$>
                  take k (cursor_sort_date (-1) (find_matches db (Versus a b)))), 200))).
Proof.
  intros Ha Hb Hn. unfold head_to_head. rewrite Hn, Ha, Hb. unfold cursor_limit, jsonify.
  split.
  - intros Hbig. by destruct (Z.leb_spec INT64_BOUND (Z.abs n)) as [_|Hsmall]; [|lia].
  - intros Hneg.
    destruct (Z.leb_spec INT64_BOUND (Z.abs n)) as [Hbig|_]; [lia|].
    destruct (Z.eqb_spec n 0) as [->|_]; [lia|].
    destruct (Z.ltb_spec 0 n) as [Hpos|_]; [lia|].
    eexists. split; [|reflexivity]. rewrite Z.abs_neq by lia. lia.
Qed.

(** [int] reads the decimal digits and the spaces of every script: the
    Arabic-Indic three, a no-break space before a digit; it refuses the
    separator U+001C, a superscript two and a doubled underscore. *)
Example int_of_str_samples :
  int_of_str "٣" = Some 3 /\
  int_of_str "-١٢" = Some (-12) /\
  int_of_str (String "194" (String "160" "7")) = Some 7 /\
  int_of_str (String "028" "5") = None /\
  int_of_str "²" = None /\
  int_of_str "1_000" = Some 1000 /\
  int_of_str "1__0" = None /\
  limit_arg (Some "٣") = Ret 3.
Proof. repeat split; reflexivity. Qed.

(** * Further properties of the handlers and their helpers *)

(** ** Where score extraction can fail *)

Lemma py_int_str_split_returns (home_str away_str : string) :
  forall e,
    (home ← py_int (VStr home_str); away ← py_int (VStr away_str); Ret (home, away))
    = Raise e -> e = ValueError.
Proof.
  intros e.
  destruct (py_int (VStr home_str)) as [n|e1] eqn:E1,
           (py_int (VStr away_str)) as [n2|e2] eqn:E2;
    simpl; intros Heq; simplify_eq; eauto using py_int_str_raises.
Qed.

Lemma py_or_zero_raises v e :
  py_int (py_or v (VInt 0)) = Raise e -> truthy v = true /\ py_int v = Raise e.
Proof.
  unfold py_or. destruct (truthy v); [done | discriminate].
Qed.

Lemma dict_get_zero_raises ft key e :
  py_int (py_or (dict_get ft key (VInt 0)) (VInt 0)) = Raise e ->
  exists v, dict_lookup ft key = Some v /\ truthy v = true /\ py_int v = Raise e.
Proof.
  unfold dict_get. destruct (dict_lookup ft key) as [v|]; [|discriminate].
  intros H. apply py_or_zero_raises in H. by exists v.
Qed.

(** X1.  [parse_score] raises only from its mapping branch: when it
    raises, the fulltime value is a mapping whose [home] or [away] entry
    is truthy and is refused by [int], and the exception is the one
    [int] raised.  A score that is a string, a number, a list, absent or
    a mapping without a [fulltime] mapping therefore never raises. *)
Theorem parse_score_raise_cause score e :
  parse_score score = Raise e ->
  exists ft key v,
    fulltime_of score = VDict ft /\
    (key = "home" \/ key = "away") /\
    dict_lookup ft key = Some v /\
    truthy v = true /\
    py_int v = Raise e.
Proof.
  unfold parse_score.
  destruct (fulltime_of score) as [| | | |s| | |ft]; try discriminate.
  - intros H. exfalso.
    assert (returns (try_except
                       (match py_split "-" s with
                        | [home_str; away_str] =>
                            home ← py_int (VStr home_str);
                            away ← py_int (VStr away_str);
                            Ret (home, away)
                        | _ => Raise ValueError
                        end) (0, 0))) as [x Hx].
    { apply try_except_returns. intros e'.
      destruct (py_split "-" s) as [|h [|a [|? ?]]]; try congruence.
      apply py_int_str_split_returns. }
    rewrite Hx in H. discriminate.
  - destruct (py_int (py_or (dict_get ft "home" (VInt 0)) (VInt 0))) as [home|e1] eqn:Eh;
      simpl.
    + destruct (py_int (py_or (dict_get ft "away" (VInt 0)) (VInt 0))) as [away|e2] eqn:Ea;
        simpl; [discriminate|].
      intros [= <-]. apply dict_get_zero_raises in Ea as (v & ? & ? & ?).
      exists ft, "away", v. auto.
    + intros [= <-]. apply dict_get_zero_raises in Eh as (v & ? & ? & ?).
      exists ft, "home", v. auto.
Qed.

Lemma parse_score_raise_cause_witness :
  exists ft key v,
    fulltime_of (VDict [("fulltime", VDict [("home", VList [VInt 1])])]) = VDict ft /\
    (key = "home" \/ key = "away") /\
    dict_lookup ft key = Some v /\
    truthy v = true /\
    py_int v = Raise TypeError.
Proof.
  apply (parse_score_raise_cause
           (VDict [("fulltime", VDict [("home", VList [VInt 1])])]) TypeError).
  reflexivity.
Defined.

(** ** [str.split] and [str.join] *)

Lemma py_split_length sep s : length (py_split sep s) = S (count_char sep s).
Proof.
  induction s as [|c r IH]; simpl; [done|].
  destruct (Ascii.eqb c sep); simpl; [by rewrite IH|].
  destruct (py_split sep r) as [|h t]; simpl in *; [discriminate | done].
Qed.

Lemma py_split_no_sep sep s : Forall (fun p => count_char sep p = 0%nat) (py_split sep s).
Proof.
  induction s as [|c r IH]; simpl; [by repeat constructor|].
  destruct (Ascii.eqb c sep) eqn:E; [by constructor|].
  destruct (py_split sep r) as [|h t]; simpl.
  - repeat constructor. simpl. by rewrite E.
  - inversion IH as [|? ? Hh Ht]; subst. constructor; [|done]. simpl. by rewrite E.
Qed.

Lemma py_join_split sep s : py_join sep (py_split sep s) = s.
Proof.
  induction s as [|c r IH]; simpl; [done|].
  destruct (Ascii.eqb_spec c sep) as [->|Hne].
  - pose proof (py_split_length sep r) as Hlen.
    destruct (py_split sep r) as [|h t]; [discriminate|].
    change (py_join sep (EmptyString :: h :: t))
      with (String sep (py_join sep (h :: t))).
    by rewrite IH.
  - destruct (py_split sep r) as [|h t]; simpl in *; [by rewrite <- IH|].
    destruct t; simpl in *; by rewrite <- IH.
Qed.

(** X2.  A string score is read as a pair only when it holds exactly one
    dash: with no dash, or with more than one (a negative number among
    them), the result is (0, 0), whether the string is the score itself
    or its [fulltime] entry. *)
Theorem parse_score_dash_count score s :
  fulltime_of score = VStr s ->
  count_char "-" s <> 1%nat ->
  parse_score score = Ret (0, 0).
Proof.
  intros Hft Hcount. unfold parse_score. rewrite Hft.
  pose proof (py_split_length "-" s) as Hlen.
  destruct (py_split "-" s) as [|h [|a [|? ?]]]; simpl in Hlen; try done.
  by destruct Hcount; injection Hlen as <-.
Qed.

Lemma parse_score_dash_count_witness :
  parse_score (VStr "-1-2") = Ret (0, 0) /\
  parse_score (VDict [("fulltime", VStr "21")]) = Ret (0, 0).
Proof.
  split.
  - apply (parse_score_dash_count (VStr "-1-2") "-1-2"); [reflexivity | discriminate].
  - apply (parse_score_dash_count (VDict [("fulltime", VStr "21")]) "21");
      [reflexivity | discriminate].
Defined.

(** X3.  In a [fulltime] mapping a side that is missing or falsy (None,
    0, False, an empty string, list or mapping) counts as no goals: the
    other side, when it holds an integer, is read as it is, and two such
    sides give (0, 0). *)
Theorem parse_score_falsy_side score ft :
  fulltime_of score = VDict ft ->
  (forall a,
      (forall v, dict_lookup ft "home" = Some v -> truthy v = false) ->
      dict_lookup ft "away" = Some (VInt a) ->
      parse_score score = Ret (0, a)) /\
  (forall h,
      dict_lookup ft "home" = Some (VInt h) ->
      (forall v, dict_lookup ft "away" = Some v -> truthy v = false) ->
      parse_score score = Ret (h, 0)) /\
  ((forall v, dict_lookup ft "home" = Some v -> truthy v = false) ->
   (forall v, dict_lookup ft "away" = Some v -> truthy v = false) ->
   parse_score score = Ret (0, 0)).
Proof.
  intros Hft.
  assert (forall key, (forall v, dict_lookup ft key = Some v -> truthy v = false) ->
            py_int (py_or (dict_get ft key (VInt 0)) (VInt 0)) = Ret 0) as Hfalsy.
  { intros key H. unfold dict_get, py_or.
    destruct (dict_lookup ft key) as [v|]; [|done]. by rewrite (H v eq_refl). }
  assert (forall key n, dict_lookup ft key = Some (VInt n) ->
            py_int (py_or (dict_get ft key (VInt 0)) (VInt 0)) = Ret n) as Hint.
  { intros key n H. unfold dict_get. rewrite H. apply py_int_or_int. }
  unfold parse_score. rewrite Hft. split; [|split].
  - intros a Hh Ha. by rewrite (Hfalsy "home" Hh), (Hint "away" a Ha).
  - intros h Hh Ha. by rewrite (Hint "home" h Hh), (Hfalsy "away" Ha).
  - intros Hh Ha. by rewrite (Hfalsy "home" Hh), (Hfalsy "away" Ha).
Qed.

Lemma parse_score_falsy_side_witness :
  parse_score (VDict [("fulltime", VDict [("home", VStr ""); ("away", VInt 2)])]) = Ret (0, 2) /\
  parse_score (VDict [("fulltime", VDict [("home", VInt 1)])]) = Ret (1, 0) /\
  parse_score (VDict [("fulltime", VDict [("home", VNone); ("away", VList [])])]) = Ret (0, 0).
Proof.
  split; [|split].
  - eapply (parse_score_falsy_side _ [("home", VStr ""); ("away", VInt 2)]);
      [reflexivity | | reflexivity].
    intros v [= <-]. reflexivity.
  - eapply (parse_score_falsy_side _ [("home", VInt 1)]); [reflexivity | reflexivity |].
    intros v. discriminate.
  - eapply (parse_score_falsy_side _ [("home", VNone); ("away", VList [])]);
      [reflexivity | |]; intros v [= <-]; reflexivity.
Defined.

(** ** Validation of the table and head-to-head requests *)

Lemma limit_arg_raises limit e : limit_arg limit = Raise e -> e = ValueError.
Proof.
  destruct limit as [s|]; simpl; [|discriminate].
  destruct (int_of_str s); congruence.
Qed.

(** X4.  [league_table] answers 422 VALIDATION_ERROR, without reading the
    store, exactly when [competition] or [season] is missing or empty;
    with both given it reads the matches of that competition and season
    once, whatever happens next, and never answers an error body. *)
Theorem league_table_validation competition season db :
  (given competition = None \/ given season = None ->
   league_table competition season db
   = ([], Ret (ErrorBody "VALIDATION_ERROR" "competition and season are required", 422))) /\
  (forall log code message status,
      league_table competition season db = (log, Ret (ErrorBody code message, status)) ->
      (given competition = None \/ given season = None) /\ log = [] /\ status = 422) /\
  (forall c s,
      given competition = Some c -> given season = Some s ->
      fst (league_table competition season db) = [FindMatches (Scope (Some c) (Some s))]).
Proof.
  unfold league_table. split; [|split].
  - intros [-> | ->]; [done|]. by destruct (given competition).
  - intros log code message status.
    destruct (given competition) as [c|], (given season) as [s|]; simpl;
      intros H; simplify_eq; auto.
    destruct (tally_matches _ _); simpl in *; discriminate.
  - intros c s -> ->. reflexivity.
Qed.

Lemma league_table_validation_witness :
  league_table (Some "PL") (Some "") sample_db
  = ([], Ret (ErrorBody "VALIDATION_ERROR" "competition and season are required", 422)) /\
  fst (league_table (Some "PL") (Some "2024") malformed_db)
  = [FindMatches (Scope (Some "PL") (Some "2024"))].
Proof.
  destruct (league_table_validation (Some "PL") (Some "") sample_db) as (H1 & _ & _).
  destruct (league_table_validation (Some "PL") (Some "2024") malformed_db) as (_ & _ & H3).
  split; [apply H1; by right | by apply H3].
Defined.

(** X5.  [head_to_head] and [top_scorers] convert [limit] before anything
    else: a limit that [int] refuses makes both raise [ValueError]
    without a read, for [head_to_head] even when a team is missing.
    With a limit that parses, [head_to_head] answers 422
    VALIDATION_ERROR without a read exactly when [team_a] or [team_b] is
    missing or empty. *)
Theorem head_to_head_validation team_a team_b competition season limit db :
  (forall e, limit_arg limit = Raise e ->
     head_to_head team_a team_b limit db = ([], Raise ValueError) /\
     top_scorers competition season limit db = ([], Raise ValueError)) /\
  (forall n, limit_arg limit = Ret n ->
     (given team_a = None \/ given team_b = None ->
      head_to_head team_a team_b limit db
      = ([], Ret (ErrorBody "VALIDATION_ERROR" "team_a and team_b are required", 422))) /\
     (forall log code message status,
         head_to_head team_a team_b limit db = (log, Ret (ErrorBody code message, status)) ->
         given team_a = None \/ given team_b = None)).
Proof.
  unfold head_to_head, top_scorers. split.
  - intros e He. rewrite He. by rewrite (limit_arg_raises _ _ He).
  - intros n ->. split.
    + intros [-> | ->]; [done|]. by destruct (given team_a).
    + intros log code message status.
      destruct (given team_a), (given team_b); simpl; intros H; simplify_eq; auto.
      destruct (cursor_limit _ _ _); simplify_eq.
Qed.

Lemma head_to_head_validation_witness :
  head_to_head None None (Some "ten") sample_db = ([], Raise ValueError) /\
  top_scorers None None (Some "") scorers_db = ([], Raise ValueError) /\
  head_to_head (Some "TeamX") None (Some "٣") sample_db
  = ([], Ret (ErrorBody "VALIDATION_ERROR" "team_a and team_b are required", 422)).
Proof.
  destruct (head_to_head_validation None None None None (Some "ten") sample_db) as [H1 _].
  destruct (head_to_head_validation None None None None (Some "") scorers_db) as [H2 _].
  destruct (head_to_head_validation (Some "TeamX") None None None (Some "٣") sample_db)
    as [_ H3].
  split; [by apply (H1 ValueError)|]. split; [by apply (H2 ValueError)|].
  destruct (H3 3 eq_refl) as [H _]. apply H. by right.
Defined.

(** ** Well-formed dictionaries and their totals *)

Section DictTotals.
Context {V : Type}.
Implicit Types (d : ddict V) (k : string).

Lemma dd_wf_empty : dd_wf (@dd_empty V).
Proof.
  split; [constructor|]. intros k. unfold dd_empty; simpl.
  rewrite lookup_empty, elem_of_nil. split; [done | by intros [? ?]].
Qed.

Lemma dd_wf_touch dflt k d : dd_wf d -> dd_wf (dd_touch dflt k d).
Proof.
  intros [Hnd Hkeys]. unfold dd_touch.
  destruct (dd_map d !! k) as [v|] eqn:E; [done|]. split; simpl.
  - apply NoDup_app. split; [done|]. split; [|apply NoDup_singleton].
    intros x Hx ->%list_elem_of_singleton. apply Hkeys in Hx as [? ?]. congruence.
  - intros k'. rewrite elem_of_app, list_elem_of_singleton, Hkeys.
    destruct (decide (k = k')) as [->|Hne].
    + rewrite lookup_insert_eq. split; [by eexists | by right].
    + rewrite lookup_insert_ne by done. split; [by intros [|] | by left].
Qed.

Lemma dd_wf_update f k d : dd_wf d -> dd_wf (dd_update f k d).
Proof.
  intros [Hnd Hkeys]. split; [done|]. intros k'. simpl. rewrite Hkeys.
  destruct (decide (k = k')) as [->|Hne].
  - rewrite lookup_alter_eq. by rewrite fmap_is_Some.
  - by rewrite lookup_alter_ne.
Qed.

Lemma dd_items_elem d k v :
  dd_wf d -> (k, v) ∈ dd_items d <-> dd_map d !! k = Some v.
Proof.
  intros [_ Hkeys]. split; [apply dd_items_lookup|].
  intros H. unfold dd_items. apply list_elem_of_omap. exists k. split.
  - apply Hkeys. by eexists.
  - by rewrite H.
Qed.

Lemma dd_items_keys d : dd_wf d -> (dd_items d).*1 = dd_keys d.
Proof.
  intros [_ Hkeys]. unfold dd_items.
  assert (forall k, k ∈ dd_keys d -> is_Some (dd_map d !! k)) as H by (intros; by apply Hkeys).
  clear Hkeys. induction (dd_keys d) as [|k l IH]; simpl; [done|].
  destruct (H k) as [v Hv]; [by left|]. rewrite Hv; simpl. f_equal.
  apply IH. intros k' Hk'. apply H. by right.
Qed.

Lemma dd_items_perm d : dd_wf d -> dd_items d ≡ₚ map_to_list (dd_map d).
Proof.
  intros Hwf. apply NoDup_Permutation.
  - apply (NoDup_fmap_1 fst). rewrite dd_items_keys by done. apply Hwf.
  - apply NoDup_map_to_list.
  - intros [k v]. by rewrite dd_items_elem, elem_of_map_to_list.
Qed.

Lemma sum_of_perm {A : Type} (f : A -> Z) l l' : l ≡ₚ l' -> sum_of f l = sum_of f l'.
Proof. induction 1; simpl; lia. Qed.

Lemma sum_of_fmap {A B : Type} (f : B -> Z) (g : A -> B) l :
  sum_of f (g <$> l) = sum_of (fun x => f (g x)) l.
Proof. unfold sum_of. induction l as [|x l IH]; csimpl; [done | by rewrite IH]. Qed.

Lemma dd_total_items (f : V -> Z) d :
  dd_wf d -> sum_of (fun kv => f kv.2) (dd_items d) = dd_total f d.
Proof. intros Hwf. unfold dd_total. apply sum_of_perm. by apply dd_items_perm. Qed.

Lemma dd_total_touch (f : V -> Z) dflt k d :
  f dflt = 0 -> dd_total f (dd_touch dflt k d) = dd_total f d.
Proof.
  intros Hf. unfold dd_touch, dd_total.
  destruct (dd_map d !! k) as [v|] eqn:E; [done|]. simpl.
  rewrite (sum_of_perm _ _ _ (map_to_list_insert _ _ _ E)). simpl. lia.
Qed.

Lemma dd_total_update (f : V -> Z) g c k d :
  (forall r, f (g r) = f r + c) ->
  is_Some (dd_map d !! k) ->
  dd_total f (dd_update g k d) = dd_total f d + c.
Proof.
  intros Hf [r Hr]. unfold dd_update, dd_total; simpl.
  rewrite <- (sum_of_perm _ _ _ (map_to_list_delete _ k r Hr)).
  rewrite <- (sum_of_perm _ _ _ (map_to_list_delete (alter g k (dd_map d)) k (g r)
                                   ltac:(by rewrite lookup_alter_eq, Hr))).
  rewrite delete_alter_eq. simpl. rewrite Hf. lia.
Qed.

Lemma dd_touch_present dflt k d : is_Some (dd_map (dd_touch dflt k d) !! k).
Proof. rewrite dd_touch_lookup, decide_True by done. by eexists. Qed.

Lemma dd_touch_keeps dflt k k' d :
  is_Some (dd_map d !! k') -> is_Some (dd_map (dd_touch dflt k d) !! k').
Proof.
  intros H. rewrite dd_touch_lookup. case_decide; [by eexists | done].
Qed.

Lemma dd_update_keeps f k k' d :
  is_Some (dd_map d !! k') -> is_Some (dd_map (dd_update f k d) !! k').
Proof.
  intros H. rewrite dd_update_lookup. case_decide; [by rewrite fmap_is_Some | done].
Qed.
End DictTotals.

(** ** The totals of the league table *)

Ltac present :=
  repeat apply dd_update_keeps;
  first [ apply dd_touch_present | apply dd_touch_keeps, dd_touch_present ].

Ltac total_updates :=
  repeat first
    [ rewrite (dd_total_update _ _ 0); [ | intros ?; simpl; lia | present ]
    | erewrite dd_total_update; [ | intros ?; simpl; reflexivity | present ] ];
  rewrite !dd_total_touch by reflexivity.

Lemma tally_match_totals standings home away hg ag :
  dd_total played (tally_match standings home away hg ag) = dd_total played standings + 2 /\
  dd_total goals_for (tally_match standings home away hg ag)
  = dd_total goals_for standings + (hg + ag) /\
  dd_total goals_against (tally_match standings home away hg ag)
  = dd_total goals_against standings + (hg + ag) /\
  dd_total wins (tally_match standings home away hg ag)
  - dd_total losses (tally_match standings home away hg ag)
  = dd_total wins standings - dd_total losses standings.
Proof.
  unfold tally_match.
  destruct (hg >? ag); [|destruct (hg <? ag)];
    repeat split; total_updates; lia.
Qed.

Lemma tally_match_wf standings home away hg ag :
  dd_wf standings -> dd_wf (tally_match standings home away hg ag).
Proof.
  intros H. unfold tally_match.
  destruct (hg >? ag); [|destruct (hg <? ag)];
    repeat apply dd_wf_update; by repeat apply dd_wf_touch.
Qed.

Lemma tally_matches_wf matches : forall standings standings',
  dd_wf standings ->
  tally_matches matches standings = Ret standings' ->
  dd_wf standings'.
Proof.
  induction matches as [|m rest IH]; intros standings standings' Hwf; simpl.
  - by intros [= <-].
  - destruct (parse_score (score_or_empty m)) as [[hg ag]|e]; simpl; [|discriminate].
    destruct (home_team_id m) as [home|], (away_team_id m) as [away|];
      eauto using tally_match_wf.
Qed.

Lemma tally_matches_totals matches : forall standings standings',
  tally_matches matches standings = Ret standings' ->
  dd_total played standings'
  = dd_total played standings + 2 * Z.of_nat (length (List.filter has_both_teams matches)) /\
  dd_total goals_for standings' - dd_total goals_against standings'
  = dd_total goals_for standings - dd_total goals_against standings /\
  dd_total wins standings' - dd_total losses standings'
  = dd_total wins standings - dd_total losses standings.
Proof.
  induction matches as [|m rest IH]; intros standings standings'; simpl.
  - intros [= <-]. lia.
  - destruct (parse_score (score_or_empty m)) as [[hg ag]|e]; simpl; [|discriminate].
    unfold has_both_teams at 1.
    destruct (home_team_id m) as [home|], (away_team_id m) as [away|]; intros H;
      apply IH in H; try (simpl; lia).
    destruct (tally_match_totals standings home away hg ag) as (Hp & Hf & Ha & Hw).
    simpl length. lia.
Qed.

Lemma table_column (f : TableRow -> Z) (g : TeamStanding -> Z) standings :
  dd_wf standings ->
  (forall team row, f (table_row (team, row)) = g row) ->
  sum_of f (sort_table (table_row <$> dd_items standings)) = dd_total g standings.
Proof.
  intros Hwf Hfg. unfold sort_table.
  rewrite (sum_of_perm _ _ _ (stable_sort_perm _ _)), sum_of_fmap.
  rewrite <- (dd_total_items g) by done.
  unfold sum_of. induction (dd_items standings) as [|[team row] l IH]; [done|].
  cbn [fold_right]. by rewrite IH, Hfg.
Qed.

(** X6.  The columns of a returned league table balance: the goals
    scored sum to the goals conceded, so the goal differences sum to
    zero; the wins sum to the losses; and the matches played sum to
    twice the number of matches found that have both team ids. *)
Theorem league_table_totals competition season db log c s table status :
  league_table competition season db = (log, Ret (TableBody c s table, status)) ->
  sum_of row_goals_for table = sum_of row_goals_against table /\
  sum_of row_goal_difference table = 0 /\
  sum_of row_wins table = sum_of row_losses table /\
  sum_of row_played table
  = 2 * Z.of_nat (length (List.filter has_both_teams
                            (find_matches db (Scope (Some c) (Some s))))).
Proof.
  intros H. apply league_table_inv in H as (standings & Hst & -> & _).
  pose proof (tally_matches_wf _ _ _ dd_wf_empty Hst) as Hwf.
  apply tally_matches_totals in Hst as (Hp & Hg & Hw).
  rewrite (table_column row_goals_for goals_for), (table_column row_goals_against goals_against),
    (table_column row_wins wins), (table_column row_losses losses),
    (table_column row_played played),
    (table_column row_goal_difference (fun r => goals_for r - goals_against r)) by done.
  assert (dd_total (fun r => goals_for r - goals_against r) standings
          = dd_total goals_for standings - dd_total goals_against standings) as ->.
  { unfold dd_total, sum_of.
    induction (map_to_list (dd_map standings)) as [|kv l IH]; simpl; lia. }
  change (dd_total played (@dd_empty TeamStanding)) with 0 in Hp.
  change (dd_total goals_for (@dd_empty TeamStanding)) with 0 in Hg.
  change (dd_total goals_against (@dd_empty TeamStanding)) with 0 in Hg.
  change (dd_total wins (@dd_empty TeamStanding)) with 0 in Hw.
  change (dd_total losses (@dd_empty TeamStanding)) with 0 in Hw.
  lia.
Qed.

Lemma league_table_totals_witness :
  sum_of row_goals_for sample_table = sum_of row_goals_against sample_table /\
  sum_of row_goal_difference sample_table = 0 /\
  sum_of row_wins sample_table = sum_of row_losses sample_table /\
  sum_of row_played sample_table = 4.
Proof.
  exact (league_table_totals _ _ _ _ _ _ _ _ league_table_sample).
Defined.

(** ** The teams of the league table *)

Lemma tally_match_keys standings home away hg ag k :
  dd_wf standings ->
  k ∈ dd_keys (tally_match standings home away hg ag)
  <-> k ∈ dd_keys standings \/ k = home \/ k = away.
Proof.
  intros Hwf.
  destruct (tally_match_wf standings home away hg ag Hwf) as [_ Hkeys'].
  destruct Hwf as [_ Hkeys]. rewrite Hkeys', Hkeys.
  destruct (decide (k = home \/ k = away)) as [Hk|Hk].
  - rewrite tally_match_present by done. split; [tauto | by eexists].
  - rewrite tally_match_other by tauto. tauto.
Qed.

Lemma tally_matches_keys matches : forall standings standings' k,
  dd_wf standings ->
  tally_matches matches standings = Ret standings' ->
  k ∈ dd_keys standings'
  <-> k ∈ dd_keys standings \/ exists m, m ∈ matches /\ plays_in k m.
Proof.
  induction matches as [|m rest IH]; intros standings standings' k Hwf; simpl.
  - intros [= <-]. split; [by left|]. intros [?|(m & Hm & _)]; [done|].
    by apply elem_of_nil in Hm.
  - destruct (parse_score (score_or_empty m)) as [[hg ag]|e]; simpl; [|discriminate].
    destruct (home_team_id m) as [home|] eqn:Eh, (away_team_id m) as [away|] eqn:Ea;
      intros H;
      [ rewrite (IH _ _ k (tally_match_wf _ home away hg ag Hwf) H),
          tally_match_keys by done
      | rewrite (IH _ _ k Hwf H) .. ].
    + split.
      * intros [[?|Hk]|(m' & Hm' & Hp)]; [by left | |].
        -- right. exists m. split; [by left|]. unfold plays_in, has_both_teams.
           rewrite Eh, Ea. split; [done|]. destruct Hk as [->| ->]; auto.
        -- right. exists m'. split; [by right | done].
      * intros [?|(m' & Hm' & Hp)]; [by left; left|].
        apply elem_of_cons in Hm' as [->|Hm']; [|right; by exists m'].
        left. right. destruct Hp as [_ Hp]. rewrite Eh, Ea in Hp.
        destruct Hp as [[= ->]|[= ->]]; auto.
    + split; [intros [?|(m' & ? & ?)]; [by left | right; exists m'; split; [by right | done]]|].
      intros [?|(m' & Hm' & Hp)]; [by left|].
      apply elem_of_cons in Hm' as [->|Hm']; [|right; by exists m'].
      destruct Hp as [Hp _]. unfold has_both_teams in Hp. by rewrite Eh, Ea in Hp.
    + split; [intros [?|(m' & ? & ?)]; [by left | right; exists m'; split; [by right | done]]|].
      intros [?|(m' & Hm' & Hp)]; [by left|].
      apply elem_of_cons in Hm' as [->|Hm']; [|right; by exists m'].
      destruct Hp as [Hp _]. unfold has_both_teams in Hp. by rewrite Eh in Hp.
    + split; [intros [?|(m' & ? & ?)]; [by left | right; exists m'; split; [by right | done]]|].
      intros [?|(m' & Hm' & Hp)]; [by left|].
      apply elem_of_cons in Hm' as [->|Hm']; [|right; by exists m'].
      destruct Hp as [Hp _]. unfold has_both_teams in Hp. by rewrite Eh in Hp.
Qed.

Lemma table_team_ids standings :
  dd_wf standings ->
  row_team_id <$> sort_table (table_row <$> dd_items standings) ≡ₚ dd_keys standings.
Proof.
  intros Hwf. unfold sort_table. rewrite stable_sort_perm.
  rewrite <- (dd_items_keys standings) by done.
  assert (row_team_id <$> (table_row <$> dd_items standings) = (dd_items standings).*1)
    as ->; [|done].
  rewrite <- list_fmap_compose. apply list_fmap_ext. by intros _ [team row] _.
Qed.

(** X7.  A returned league table has one row per team: no team id
    occurs twice, and a team has a row exactly when it is the home or
    the away side of a match found that has both team ids. *)
Theorem league_table_teams competition season db log c s table status :
  league_table competition season db = (log, Ret (TableBody c s table, status)) ->
  NoDup (row_team_id <$> table) /\
  forall team,
    team ∈ row_team_id <$> table
    <-> exists m, m ∈ find_matches db (Scope (Some c) (Some s)) /\ plays_in team m.
Proof.
  intros H. apply league_table_inv in H as (standings & Hst & -> & _).
  pose proof (tally_matches_wf _ _ _ dd_wf_empty Hst) as Hwf.
  rewrite table_team_ids by done. split; [apply Hwf|].
  intros team. rewrite table_team_ids by done.
  rewrite (tally_matches_keys _ _ _ team dd_wf_empty Hst).
  split; [intros [H|H]; [by apply elem_of_nil in H | done] | by right].
Qed.

Lemma league_table_teams_witness :
  NoDup (row_team_id <$> sample_table) /\
  exists m, m ∈ find_matches sample_db (Scope (Some "PL") (Some "2024")) /\ plays_in "TeamY" m.
Proof.
  destruct (league_table_teams _ _ _ _ _ _ _ _ league_table_sample) as [Hnd Hteams].
  split; [exact Hnd|]. apply Hteams. by right; left.
Defined.

(** ** The shape of the leaderboard *)

Lemma StronglySorted_take {A : Type} (R : A -> A -> Prop) l :
  StronglySorted R l -> forall n, StronglySorted R (take n l).
Proof.
  induction 1 as [|x l Hl IH Hx]; intros [|n]; simpl; try constructor.
  - apply IH.
  - by apply Forall_take.
Qed.

Lemma StronglySorted_take_drop {A : Type} (R : A -> A -> Prop) l :
  StronglySorted R l ->
  forall n x y, x ∈ take n l -> y ∈ drop n l -> R x y.
Proof.
  induction 1 as [|z l Hl IH Hz]; intros [|n] x y; simpl;
    try (intros Hx; by apply elem_of_nil in Hx).
  intros Hx Hy. apply elem_of_cons in Hx as [->|Hx]; [|by eapply IH].
  rewrite Forall_forall in Hz. apply Hz. by eapply subseteq_drop.
Qed.

Lemma slice_to_take {A : Type} n (l : list A) : exists k, slice_to n l = take k l.
Proof. unfold slice_to. destruct (0 <=? n); by eexists. Qed.

Lemma count_goal_wf goal_counts player : dd_wf goal_counts -> dd_wf (count_goal goal_counts player).
Proof. intros H. by apply dd_wf_update, dd_wf_touch. Qed.

Lemma count_events_wf evs : forall goal_counts,
  dd_wf goal_counts -> dd_wf (fold_left count_event evs goal_counts).
Proof.
  induction evs as [|e evs IH]; intros goal_counts Hwf; simpl; [done|].
  apply IH. unfold count_event. destruct (scoring_player e); auto using count_goal_wf.
Qed.

Lemma count_goals_wf matches : dd_wf (count_goals matches).
Proof. unfold count_goals. rewrite count_goals_flat. apply count_events_wf, dd_wf_empty. Qed.

Lemma count_goals_count matches player :
  goals_of player (count_goals matches)
  = Z.of_nat (length (filter (fun e => qualifying e player) (all_events matches))).
Proof.
  unfold count_goals. rewrite count_goals_flat, count_events_goals.
  unfold goals_of, dd_empty; simpl. rewrite lookup_empty. simpl. lia.
Qed.

Lemma count_goal_positive goal_counts scorer :
  (forall p n, dd_map goal_counts !! p = Some n -> 1 <= n) ->
  forall p n, dd_map (count_goal goal_counts scorer) !! p = Some n -> 1 <= n.
Proof.
  intros H p n. unfold count_goal. rewrite dd_update_lookup, dd_touch_lookup.
  case_decide; [subst|apply H].
  destruct (dd_map goal_counts !! p) as [n0|] eqn:E; simpl; intros [= <-]; [|lia].
  apply H in E. lia.
Qed.

Lemma count_events_positive evs : forall goal_counts,
  (forall p n, dd_map goal_counts !! p = Some n -> 1 <= n) ->
  forall p n, dd_map (fold_left count_event evs goal_counts) !! p = Some n -> 1 <= n.
Proof.
  induction evs as [|e evs IH]; intros goal_counts H; simpl; [done|].
  apply IH. unfold count_event.
  destruct (scoring_player e); [by apply count_goal_positive | done].
Qed.

Lemma count_goals_positive matches p n :
  dd_map (count_goals matches) !! p = Some n -> 1 <= n.
Proof.
  unfold count_goals. rewrite count_goals_flat. apply count_events_positive.
  intros p' n'. unfold dd_empty; simpl. by rewrite lookup_empty.
Qed.

(** A scorer is a key of the counter, and conversely. *)
Lemma count_goals_keys matches player :
  player ∈ dd_keys (count_goals matches)
  <-> exists e, e ∈ all_events matches /\ qualifying e player.
Proof.
  destruct (count_goals_wf matches) as [_ Hkeys]. rewrite Hkeys.
  pose proof (count_goals_count matches player) as Hcount. unfold goals_of in Hcount.
  split.
  - intros [n Hn]. rewrite Hn in Hcount. simpl in Hcount.
    apply count_goals_positive in Hn.
    destruct (filter _ _) as [|e l] eqn:E; [simpl in Hcount; lia|].
    assert (e ∈ filter (fun e => qualifying e player) (all_events matches)) as Hin
      by (rewrite E; by left).
    apply list_elem_of_filter in Hin as [? ?]. by exists e.
  - intros (e & He & Hq).
    destruct (dd_map (count_goals matches) !! player) as [n|] eqn:E; [by eexists|].
    simpl in Hcount.
    assert (e ∈ filter (fun e => qualifying e player) (all_events matches)) as Hin
      by (by apply list_elem_of_filter).
    destruct (filter _ _); [by apply elem_of_nil in Hin | simpl in Hcount; lia].
Qed.

Lemma top_scorers_inv competition season limit db log leaders status :
  top_scorers competition season limit db = (log, Ret (LeadersBody leaders, status)) ->
  exists n k,
    limit_arg limit = Ret n /\
    leaders
    = take k (sort_by_key_reverse leader_goals
                (leader_entry (player_docs_of
                                 (find_players db
                                    (dd_keys (count_goals (find_matches db
                                                (scope_query competition season))))))
                 <$> dd_items (count_goals (find_matches db
                                              (scope_query competition season))))) /\
    (0 <= n -> (length leaders <= Z.to_nat n)%nat).
Proof.
  unfold top_scorers. destruct (limit_arg limit) as [n|e]; [|discriminate].
  destruct (dd_is_empty _) eqn:E.
  - intros [= _ <- _]. exists n, 0%nat. split; [done|]. split; [done|]. simpl. lia.
  - intros [= _ <- _]. unfold slice_to.
    destruct (Z.leb_spec 0 n) as [Hn|Hn].
    + exists n, (Z.to_nat n). split; [done|]. split; [done|].
      intros _. rewrite length_take. lia.
    + eexists n, _. split; [done|]. split; [done|]. lia.
Qed.

Lemma leader_ids player_docs (goal_counts : ddict Z) :
  dd_wf goal_counts ->
  leader_player_id <$> (leader_entry player_docs <$> dd_items goal_counts)
  = dd_keys goal_counts.
Proof.
  intros Hwf. rewrite <- (dd_items_keys goal_counts) by done.
  rewrite <- list_fmap_compose. apply list_fmap_ext. by intros _ [player goals] _.
Qed.

Lemma goals_sorted (leaders : list ScorerEntry) :
  StronglySorted (fun x y => leader_goals y <= leader_goals x)
    (sort_by_key_reverse leader_goals leaders).
Proof.
  unfold sort_by_key_reverse.
  eapply StronglySorted_weaken; [intros x y H; apply Z.leb_le; exact H|].
  apply stable_sort_sorted.
  - intros x y. rewrite Z.leb_gt, Z.leb_le. lia.
  - intros x y z. rewrite !Z.leb_le. lia.
Qed.

(** X8.  A returned leaderboard is in descending order of goals, names
    no player twice, lists only players with at least one goal, and for a
    limit of zero or more holds at most [limit] entries. *)
Theorem top_scorers_board competition season limit db log leaders status :
  top_scorers competition season limit db = (log, Ret (LeadersBody leaders, status)) ->
  StronglySorted (fun x y => leader_goals y <= leader_goals x) leaders /\
  NoDup (leader_player_id <$> leaders) /\
  Forall (fun l => 1 <= leader_goals l) leaders /\
  (forall n, limit_arg limit = Ret n -> 0 <= n -> (length leaders <= Z.to_nat n)%nat).
Proof.
  intros H. pose proof H as Hgoals.
  apply top_scorers_inv in H as (n & k & Hn & -> & Hlen).
  split; [apply StronglySorted_take, goals_sorted|]. split; [|split].
  - rewrite fmap_take. eapply sublist_NoDup; [|apply sublist_take].
    unfold sort_by_key_reverse. rewrite stable_sort_perm.
    rewrite leader_ids by apply count_goals_wf. apply count_goals_wf.
  - apply Forall_forall. intros l Hl.
    rewrite (top_scorers_goals _ _ _ _ _ _ _ l Hgoals Hl).
    apply subseteq_take in Hl. unfold sort_by_key_reverse in Hl.
    rewrite stable_sort_perm in Hl.
    apply list_elem_of_fmap in Hl as ([player goals] & -> & Hitem).
    apply dd_items_lookup in Hitem. simpl. unfold goals_of. rewrite Hitem. simpl.
    by eapply count_goals_positive.
  - intros n' Hn'. rewrite Hn in Hn'. injection Hn' as <-. exact Hlen.
Qed.

Lemma top_scorers_board_witness :
  exists leaders,
    top_scorers None None (Some "1") scorers_db
    = ([FindMatches (Scope None None); FindPlayers ["p2"; "p1"]],
       Ret (LeadersBody leaders, 200)) /\
    leader_player_id <$> leaders = ["p1"] /\
    Forall (fun l => 1 <= leader_goals l) leaders /\
    (length leaders <= Z.to_nat 1)%nat.
Proof.
  eexists. split; [vm_compute; reflexivity|]. split; [reflexivity|].
  edestruct (top_scorers_board None None (Some "1") scorers_db)
    as (_ & _ & Hpos & Hlen); [vm_compute; reflexivity|].
  split; [exact Hpos|]. by apply (Hlen 1).
Defined.

(** X9.  Truncation drops only the lowest scorers: a player with a
    counted goal is on the returned leaderboard, or has no more goals
    than any player on it. *)
Theorem top_scorers_ranking competition season limit db log leaders status player :
  top_scorers competition season limit db = (log, Ret (LeadersBody leaders, status)) ->
  (exists e, e ∈ all_events (find_matches db (scope_query competition season))
             /\ qualifying e player) ->
  player ∈ leader_player_id <$> leaders \/
  Forall (fun l =>
            Z.of_nat (length (filter (fun e => qualifying e player)
                                (all_events (find_matches db
                                               (scope_query competition season)))))
            <= leader_goals l) leaders.
Proof.
  intros H Hscored.
  apply top_scorers_inv in H as (n & k & _ & -> & _).
  set (goal_counts := count_goals (find_matches db (scope_query competition season))).
  set (docs := player_docs_of (find_players db (dd_keys goal_counts))).
  set (full := sort_by_key_reverse leader_goals (leader_entry docs <$> dd_items goal_counts)).
  apply count_goals_keys in Hscored.
  destruct (count_goals_wf (find_matches db (scope_query competition season)))
    as [Hnd Hkeys].
  apply Hkeys in Hscored as [goals Hgoals]. fold goal_counts in Hgoals.
  assert (leader_entry docs (player, goals) ∈ full) as Hin.
  { unfold full, sort_by_key_reverse. rewrite stable_sort_perm.
    apply list_elem_of_fmap. exists (player, goals). split; [done|].
    apply dd_items_elem; [apply count_goals_wf | done]. }
  rewrite <- (take_drop k full) in Hin. apply elem_of_app in Hin as [Hin|Hin].
  - left. apply list_elem_of_fmap. by exists (leader_entry docs (player, goals)).
  - right. apply Forall_forall. intros l Hl.
    rewrite <- count_goals_count. fold goal_counts. unfold goals_of.
    rewrite Hgoals. simpl.
    apply (StronglySorted_take_drop _ full (goals_sorted _) k l
             (leader_entry docs (player, goals)) Hl Hin).
Qed.

Lemma top_scorers_ranking_witness :
  "p2" ∈ leader_player_id
         <$> [ {| leader_player_id := "p1"; leader_name := Some "Ada"; leader_goals := 2 |} ] \/
  Forall (fun l =>
            Z.of_nat (length (filter (fun e => qualifying e "p2")
                                (all_events (find_matches scorers_db (scope_query None None)))))
            <= leader_goals l)
    [ {| leader_player_id := "p1"; leader_name := Some "Ada"; leader_goals := 2 |} ].
Proof.
  apply (top_scorers_ranking None None (Some "1") scorers_db
           [FindMatches (Scope None None); FindPlayers ["p2"; "p1"]] _ 200 "p2").
  - vm_compute. reflexivity.
  - exists (goal "p2"). split; [by left | by repeat split].
Defined.

(** ** The player lookup *)

Lemma player_docs_other docs : forall (acc : gmap string Player) k,
  (forall doc, doc ∈ docs -> player_doc_id doc <> k) ->
  fold_left (fun acc doc => <[player_doc_id doc := doc]> acc) docs acc !! k = acc !! k.
Proof.
  induction docs as [|d ds IH]; intros acc k H; simpl; [done|].
  rewrite IH by (intros doc Hdoc; apply H; by right).
  apply lookup_insert_ne, H. by left.
Qed.

Lemma player_docs_found docs : forall (acc : gmap string Player) doc,
  NoDup (player_doc_id <$> docs) ->
  doc ∈ docs ->
  fold_left (fun acc doc => <[player_doc_id doc := doc]> acc) docs acc
    !! player_doc_id doc = Some doc.
Proof.
  induction docs as [|d ds IH]; intros acc doc Hnd Hdoc; simpl.
  - by apply elem_of_nil in Hdoc.
  - rewrite fmap_cons in Hnd. apply NoDup_cons in Hnd as [Hd Hnd].
    apply elem_of_cons in Hdoc as [->|Hdoc]; [|by apply IH].
    rewrite player_docs_other; [apply lookup_insert_eq|].
    intros doc Hdoc Heq. apply Hd. rewrite <- Heq.
    apply list_elem_of_fmap. by exists doc.
Qed.

Lemma find_players_elem db ids doc :
  doc ∈ find_players db ids <-> doc ∈ players_coll db /\ player_doc_id doc ∈ ids.
Proof.
  unfold find_players. rewrite list_elem_of_In, filter_In, <- list_elem_of_In.
  rewrite existsb_exists. split.
  - intros [Hdoc (x & Hx & ->%String.eqb_eq)]. split; [done | by apply list_elem_of_In].
  - intros [Hdoc Hid]. split; [done|]. exists (player_doc_id doc).
    split; [by apply list_elem_of_In | apply String.eqb_refl].
Qed.

Lemma find_players_NoDup db ids :
  NoDup (player_doc_id <$> players_coll db) ->
  NoDup (player_doc_id <$> find_players db ids).
Proof.
  unfold find_players. induction (players_coll db) as [|d ds IH]; csimpl; [done|].
  intros [Hd Hnd]%NoDup_cons.
  destruct (existsb _ ids); csimpl; [|by apply IH].
  apply NoDup_cons. split; [|by apply IH].
  intros Hin. apply Hd. apply list_elem_of_fmap in Hin as (doc & -> & Hdoc).
  apply list_elem_of_fmap. exists doc. split; [done|].
  apply list_elem_of_In, filter_In in Hdoc as [Hdoc _]. by apply list_elem_of_In.
Qed.

(** X10.  The names on the leaderboard come from the player lookup: an
    entry whose player id matches no stored player has no name, and,
    player ids being unique in the store, an entry carries the name of
    the stored player with its id (none when that player has no name). *)
Theorem top_scorers_names competition season limit db log leaders status l :
  top_scorers competition season limit db = (log, Ret (LeadersBody leaders, status)) ->
  l ∈ leaders ->
  ((forall doc, doc ∈ players_coll db -> player_doc_id doc <> leader_player_id l) ->
   leader_name l = None) /\
  (NoDup (player_doc_id <$> players_coll db) ->
   forall doc, doc ∈ players_coll db -> player_doc_id doc = leader_player_id l ->
     leader_name l = player_name doc).
Proof.
  intros H Hl. apply top_scorers_inv in H as (n & k & _ & -> & _).
  apply subseteq_take in Hl. unfold sort_by_key_reverse in Hl.
  rewrite stable_sort_perm in Hl.
  apply list_elem_of_fmap in Hl as ([player goals] & -> & Hitem). simpl.
  assert (player ∈ dd_keys (count_goals (find_matches db (scope_query competition season))))
    as Hkey.
  { rewrite <- dd_items_keys by apply count_goals_wf.
    apply list_elem_of_fmap. by exists (player, goals). }
  unfold player_docs_of. split.
  - intros Hnone. rewrite player_docs_other; [by rewrite lookup_empty|].
    intros doc [Hdoc _]%find_players_elem. by apply Hnone.
  - intros Hnd doc Hdoc <-.
    rewrite player_docs_found; [done | by apply find_players_NoDup |].
    by apply find_players_elem.
Qed.

Lemma top_scorers_names_witness :
  leader_name {| leader_player_id := "p2"; leader_name := None; leader_goals := 1 |} = None /\
  leader_name {| leader_player_id := "p1"; leader_name := Some "Ada"; leader_goals := 2 |}
  = player_name {| player_doc_id := "p1"; player_name := Some "Ada" |}.
Proof.
  split.
  - eapply (top_scorers_names None None None scorers_db); [vm_compute; reflexivity | |].
    + right; by left.
    + intros doc [->|[]%elem_of_nil]%elem_of_cons. discriminate.
  - eapply (top_scorers_names None None None scorers_db);
      [vm_compute; reflexivity | by left | | by left | reflexivity].
    simpl. apply NoDup_singleton.
Defined.

(** ** Streaks of a longer sequence *)

Lemma streak_scan_app target l1 l2 :
  streak_scan target (l1 ++ l2) = fold_left (scan_step target) l2 (streak_scan target l1).
Proof. unfold streak_scan. rewrite fold_left_app. reflexivity. Qed.

(** The scan started from a later state runs ahead of the scan started
    afresh by no more than the run it inherited. *)
Lemma scan_simulation target l : forall L C L0 C0 Linit c,
  0 <= c ->
  C0 <= C <= C0 + c ->
  L0 <= L -> Linit <= L -> L <= Z.max Linit (L0 + c) ->
  let '(L', C') := fold_left (scan_step target) l (L, C) in
  let '(L0', C0') := fold_left (scan_step target) l (L0, C0) in
  L0' <= L' /\ Linit <= L' /\ L' <= Z.max Linit (L0' + c).
Proof.
  induction l as [|x l IH]; intros L C L0 C0 Linit c Hc HC HL0 HLi HL; simpl; [lia|].
  destruct (String.eqb x target); apply IH; lia.
Qed.

Lemma longest_streak_in sequence target :
  target ∈ sequence -> 1 <= longest_streak sequence target.
Proof.
  intros (pre & post & ->)%list_elem_of_split.
  rewrite longest_streak_scan.
  pose proof (streak_scan_spec target (pre ++ target :: post)) as H.
  destruct (streak_scan target (pre ++ target :: post)) as [longest current]; simpl.
  destruct H as (_ & _ & _ & _ & Hmax). apply (Hmax pre 1%nat post). reflexivity.
Qed.

Lemma longest_streak_run sequence target :
  exists pre post,
    sequence = pre ++ replicate (Z.to_nat (longest_streak sequence target)) target ++ post /\
    0 <= longest_streak sequence target.
Proof.
  rewrite longest_streak_scan.
  pose proof (streak_scan_spec target sequence) as H.
  destruct (streak_scan target sequence) as [longest current]; simpl.
  destruct H as (Hb & _ & _ & (pre & post & Hrun) & _).
  exists pre, post. split; [done | lia].
Qed.

(** X11.  The longest streak of a sequence lies between 0 and its
    length and is 0 exactly when the target does not occur.  Appending
    matches never shortens it, and the longest streak of two sequences
    put together is at most the sum of their longest streaks. *)
Theorem longest_streak_bounds target l1 l2 :
  0 <= longest_streak l1 target <= Z.of_nat (length l1) /\
  (longest_streak l1 target = 0 <-> target ∉ l1) /\
  Z.max (longest_streak l1 target) (longest_streak l2 target)
  <= longest_streak (l1 ++ l2) target
  <= longest_streak l1 target + longest_streak l2 target.
Proof.
  split; [|split].
  - destruct (longest_streak_run l1 target) as (pre & post & Hrun & Hpos).
    split; [done|]. apply (f_equal length) in Hrun.
    rewrite !length_app, length_replicate in Hrun. lia.
  - split.
    + intros H0 Hin. apply longest_streak_in in Hin. lia.
    + intros Hnot.
      destruct (longest_streak_run l1 target) as (pre & post & Hrun & Hpos).
      destruct (Z.to_nat (longest_streak l1 target)) as [|n] eqn:E; [lia|].
      destruct Hnot. rewrite Hrun. simpl.
      apply elem_of_app. right. by left.
  - rewrite !longest_streak_scan, streak_scan_app.
    pose proof (streak_scan_spec target l1) as H1.
    destruct (streak_scan target l1) as [L1 C1].
    destruct H1 as (Hb & _).
    pose proof (scan_simulation target l2 L1 C1 0 0 L1 C1) as Hsim.
    pose proof (streak_scan_spec target l2) as H2.
    change (streak_scan target l2) with (fold_left (scan_step target) l2 (0, 0)) in *.
    destruct (fold_left (scan_step target) l2 (L1, C1)) as [L C].
    destruct (fold_left (scan_step target) l2 (0, 0)) as [L2 C2].
    destruct H2 as (Hb2 & _). simpl. lia.
Qed.

Lemma longest_streak_bounds_witness :
  (longest_streak ["D"; "L"] "W" = 0 <-> "W" ∉ ["D"; "L"]) /\
  Z.max (longest_streak ["L"; "W"] "W") (longest_streak ["W"; "W"; "D"] "W")
  <= longest_streak (["L"; "W"] ++ ["W"; "W"; "D"]) "W"
  <= longest_streak ["L"; "W"] "W" + longest_streak ["W"; "W"; "D"] "W".
Proof.
  split.
  - apply (longest_streak_bounds "W" ["D"; "L"] []).
  - apply (longest_streak_bounds "W" ["L"; "W"] ["W"; "W"; "D"]).
Defined.

(** ** The sequences the streak handler builds *)

Lemma record_match_results streak_type team_results home away hg ag team :
  results_of team (record_match streak_type team_results home away hg ag)
  = results_of team team_results
    ++ (if decide (team = home) then [side_symbol streak_type hg ag] else [])
    ++ (if decide (team = away) then [side_symbol streak_type ag hg] else []).
Proof.
  unfold record_match, side_symbol.
  destruct (String.eqb streak_type "clean_sheet");
    rewrite !append_result_results;
    repeat case_decide; simplify_eq; by rewrite <- ?app_assoc, ?app_nil_r.
Qed.

Lemma record_matches_results streak_type matches : forall team_results team_results' team,
  record_matches streak_type matches team_results = Ret team_results' ->
  results_of team team_results'
  = results_of team team_results ++ concat (match_symbols streak_type team <$> matches).
Proof.
  induction matches as [|m rest IH]; intros team_results team_results' team; csimpl.
  - intros [= <-]. by rewrite app_nil_r.
  - unfold match_symbols at 1.
    destruct (parse_score (score_or_empty m)) as [[hg ag]|e]; simpl; [|discriminate].
    destruct (home_team_id m) as [home|], (away_team_id m) as [away|]; intros H;
      rewrite (IH _ _ team H); try reflexivity.
    by rewrite record_match_results, <- !app_assoc.
Qed.

Lemma append_result_wf team_results team symbol :
  dd_wf team_results -> dd_wf (append_result team_results team symbol).
Proof. intros H. by apply dd_wf_update, dd_wf_touch. Qed.

Lemma record_match_wf streak_type team_results home away hg ag :
  dd_wf team_results -> dd_wf (record_match streak_type team_results home away hg ag).
Proof.
  intros H. unfold record_match.
  destruct (String.eqb streak_type "clean_sheet"); by repeat apply append_result_wf.
Qed.

Lemma record_matches_wf streak_type matches : forall team_results team_results',
  dd_wf team_results ->
  record_matches streak_type matches team_results = Ret team_results' ->
  dd_wf team_results'.
Proof.
  induction matches as [|m rest IH]; intros team_results team_results' Hwf; simpl.
  - by intros [= <-].
  - destruct (parse_score (score_or_empty m)) as [[hg ag]|e]; simpl; [|discriminate].
    destruct (home_team_id m) as [home|], (away_team_id m) as [away|];
      eauto using record_match_wf.
Qed.

Lemma append_result_keys team_results team symbol k :
  dd_wf team_results ->
  k ∈ dd_keys (append_result team_results team symbol)
  <-> k ∈ dd_keys team_results \/ k = team.
Proof.
  intros Hwf.
  destruct (append_result_wf team_results team symbol Hwf) as [_ Hkeys'].
  destruct Hwf as [_ Hkeys]. rewrite Hkeys', Hkeys.
  unfold append_result. rewrite dd_update_lookup, dd_touch_lookup.
  destruct (decide (team = k)) as [->|Hne]; simpl.
  - split; [by right | by eexists].
  - split; [by left | intros [?| ->]; done].
Qed.

Lemma record_match_keys streak_type team_results home away hg ag k :
  dd_wf team_results ->
  k ∈ dd_keys (record_match streak_type team_results home away hg ag)
  <-> k ∈ dd_keys team_results \/ k = home \/ k = away.
Proof.
  intros Hwf. unfold record_match.
  destruct (String.eqb streak_type "clean_sheet");
    rewrite !append_result_keys by auto using append_result_wf; tauto.
Qed.

Lemma record_matches_keys streak_type matches : forall team_results team_results' k,
  dd_wf team_results ->
  record_matches streak_type matches team_results = Ret team_results' ->
  k ∈ dd_keys team_results'
  <-> k ∈ dd_keys team_results \/ exists m, m ∈ matches /\ plays_in k m.
Proof.
  induction matches as [|m rest IH]; intros team_results team_results' k Hwf; simpl.
  - intros [= <-]. split; [by left|]. intros [?|(m & Hm & _)]; [done|].
    by apply elem_of_nil in Hm.
  - destruct (parse_score (score_or_empty m)) as [[hg ag]|e]; simpl; [|discriminate].
    assert (forall P : Prop,
              (P <-> plays_in k m) ->
              (k ∈ dd_keys team_results \/ P) \/ (exists m', m' ∈ rest /\ plays_in k m')
              <-> k ∈ dd_keys team_results \/ exists m', m' ∈ m :: rest /\ plays_in k m')
      as Hcons.
    { intros P HP. split.
      - intros [[?|HPk]|(m' & ? & ?)]; [by left | |].
        + right. exists m. split; [by left | by apply HP].
        + right. exists m'. split; [by right | done].
      - intros [?|(m' & Hm' & Hp)]; [by left; left|].
        apply elem_of_cons in Hm' as [->|Hm']; [left; right; by apply HP|].
        right. by exists m'. }
    unfold plays_in, has_both_teams in Hcons.
    destruct (home_team_id m) as [home|] eqn:Eh, (away_team_id m) as [away|] eqn:Ea;
      intros H;
      [ rewrite (IH _ _ k (record_match_wf streak_type _ home away hg ag Hwf) H),
          record_match_keys by done
      | rewrite (IH _ _ k Hwf H) .. ].
    + apply Hcons. split; [intros [->| ->]; auto | intros [_ [[= ->]|[= ->]]]; auto].
    + rewrite <- (Hcons False); [tauto | split; [done | by intros [? _]]].
    + rewrite <- (Hcons False); [tauto | split; [done | by intros [? _]]].
    + rewrite <- (Hcons False); [tauto | split; [done | by intros [? _]]].
Qed.

Lemma streaks_inv competition season streak_type db log type streaks_data status :
  streaks competition season streak_type db = (log, Ret (StreaksBody type streaks_data, status)) ->
  streak_type = Some type /\
  exists team_results,
    record_matches type
      (cursor_sort_date 1 (find_matches db (scope_query competition season))) dd_empty
    = Ret team_results /\
    streaks_data
    = sort_by_key_reverse streak (streak_entry type <$> dd_items team_results).
Proof.
  unfold streaks. destruct streak_type as [t|]; [|discriminate].
  destruct (allowed_streak_type (Some t)); [|discriminate].
  intros [= _ H].
  destruct (record_matches t _ dd_empty) as [team_results|e] eqn:E; simpl in H;
    [|discriminate].
  injection H as <- <- _. split; [done|]. by exists team_results.
Qed.

Lemma sorted_matches_elem m (docs : list Match) :
  m ∈ cursor_sort_date 1 docs <-> m ∈ docs.
Proof. unfold cursor_sort_date; simpl. by rewrite stable_sort_perm. Qed.

Lemma streak_team_ids streak_type (team_results : ddict (list string)) :
  dd_wf team_results ->
  streak_team_id <$> sort_by_key_reverse streak (streak_entry streak_type <$> dd_items team_results)
  ≡ₚ dd_keys team_results.
Proof.
  intros Hwf. unfold sort_by_key_reverse. rewrite stable_sort_perm.
  rewrite <- (dd_items_keys team_results) by done.
  assert (streak_team_id <$> (streak_entry streak_type <$> dd_items team_results)
          = (dd_items team_results).*1) as ->; [|done].
  rewrite <- list_fmap_compose. apply list_fmap_ext. by intros _ [team results] _.
Qed.

(** X12.  The rows the streak handler returns are in descending order
    of streak, one per team and with no negative streak; a team has a
    row exactly when it is the home or the away side of a match in scope
    that has both team ids. *)
Theorem streaks_rows competition season streak_type db log type streaks_data status :
  streaks competition season streak_type db = (log, Ret (StreaksBody type streaks_data, status)) ->
  StronglySorted longer_or_same streaks_data /\
  NoDup (streak_team_id <$> streaks_data) /\
  Forall (fun row => 0 <= streak row) streaks_data /\
  forall team,
    team ∈ streak_team_id <$> streaks_data
    <-> exists m, m ∈ find_matches db (scope_query competition season) /\ plays_in team m.
Proof.
  intros H. apply streaks_inv in H as (_ & team_results & Hrec & ->).
  pose proof (record_matches_wf _ _ _ _ dd_wf_empty Hrec) as Hwf.
  split; [|split; [|split]].
  - unfold sort_by_key_reverse.
    eapply StronglySorted_weaken; [intros x y Hxy; apply Z.leb_le; exact Hxy|].
    apply stable_sort_sorted.
    + intros x y. rewrite Z.leb_gt, Z.leb_le. lia.
    + intros x y z. rewrite !Z.leb_le. lia.
  - rewrite streak_team_ids by done. apply Hwf.
  - apply Forall_forall. intros row Hrow. unfold sort_by_key_reverse in Hrow.
    rewrite stable_sort_perm in Hrow.
    apply list_elem_of_fmap in Hrow as ([team results] & -> & _). simpl.
    by destruct (longest_streak_run results (streak_target type)) as (? & ? & _ & ?).
  - intros team. rewrite streak_team_ids by done.
    rewrite (record_matches_keys _ _ _ _ team dd_wf_empty Hrec). split.
    + intros [Hnil|(m & Hm & Hp)]; [by apply elem_of_nil in Hnil|].
      exists m. split; [by apply sorted_matches_elem | done].
    + intros (m & Hm & Hp). right. exists m. split; [by apply sorted_matches_elem | done].
Qed.

Lemma streaks_rows_witness :
  NoDup (streak_team_id
           <$> [ {| streak_team_id := "A"; streak := 1 |};
                 {| streak_team_id := "B"; streak := 1 |} ]) /\
  exists m, m ∈ find_matches streak_db (scope_query None None) /\ plays_in "B" m.
Proof.
  edestruct (streaks_rows None None (Some "clean_sheet") streak_db)
    as (_ & Hnd & _ & Hteams); [vm_compute; reflexivity|].
  split; [exact Hnd|]. apply Hteams. right; by left.
Defined.

(** ** Streaks against the league table *)

Lemma fold_left_comm_perm {A B : Type} (f : B -> A -> B) (l l' : list A) :
  (forall r a b, f (f r a) b = f (f r b) a) ->
  l ≡ₚ l' -> forall r, fold_left f l r = fold_left f l' r.
Proof.
  intros Hcomm. induction 1 as [|x l l' _ IH|x y l|l l' l'' _ IH1 _ IH2];
    intros r; simpl; [done | apply IH | by rewrite Hcomm | by rewrite IH1].
Qed.

Lemma after_match_comm r a b c d :
  after_match (after_match r a b) c d = after_match (after_match r c d) a b.
Proof. unfold after_match; simpl. f_equal; lia. Qed.

Lemma side_share_comm team r s1 a b s2 c d :
  side_share s1 a b team (side_share s2 c d team r)
  = side_share s2 c d team (side_share s1 a b team r).
Proof. unfold side_share. repeat case_decide; auto using after_match_comm. Qed.

Lemma team_share_comm team r m1 m2 :
  team_share team (team_share team r m1) m2 = team_share team (team_share team r m2) m1.
Proof.
  unfold team_share.
  destruct (home_team_id m1), (away_team_id m1),
    (parse_score (score_or_empty m1)) as [[? ?]|], (home_team_id m2), (away_team_id m2),
    (parse_score (score_or_empty m2)) as [[? ?]|]; try reflexivity.
  by rewrite !(side_share_comm team _ _ _ _ s1), !(side_share_comm team _ _ _ _ s2).
Qed.

Lemma team_record_perm team matches matches' :
  matches ≡ₚ matches' -> team_record team matches = team_record team matches'.
Proof.
  intros H. unfold team_record.
  apply fold_left_comm_perm; [apply team_share_comm | done].
Qed.

Lemma count_symbol_app symbol l1 l2 :
  count_symbol symbol (l1 ++ l2) = count_symbol symbol l1 + count_symbol symbol l2.
Proof. unfold count_symbol. rewrite filter_app, length_app. lia. Qed.

Lemma count_symbol_nonneg symbol l : 0 <= count_symbol symbol l.
Proof. unfold count_symbol. lia. Qed.

Lemma count_symbol_replicate symbol n :
  count_symbol symbol (replicate n symbol) = Z.of_nat n.
Proof.
  unfold count_symbol. induction n as [|n IH]; simpl; [done|].
  rewrite filter_cons, decide_True by done. simpl. lia.
Qed.

Lemma count_symbol_length symbol l : count_symbol symbol l <= Z.of_nat (length l).
Proof. unfold count_symbol. pose proof (length_filter (fun x => x = symbol) l). lia. Qed.

Lemma longest_streak_count sequence target :
  longest_streak sequence target <= count_symbol target sequence.
Proof.
  destruct (longest_streak_run sequence target) as (pre & post & Hrun & Hpos).
  rewrite Hrun at 2. rewrite !count_symbol_app, count_symbol_replicate.
  pose proof (count_symbol_nonneg target pre).
  pose proof (count_symbol_nonneg target post). lia.
Qed.

Lemma count_symbol_one symbol x :
  count_symbol symbol [x] = if decide (x = symbol) then 1 else 0.
Proof.
  unfold count_symbol. rewrite filter_cons, filter_nil. by case_decide.
Qed.

Lemma result_symbol_counts scored conceded :
  count_symbol "W" [result_symbol scored conceded] = (if scored >? conceded then 1 else 0) /\
  count_symbol "L" [result_symbol scored conceded] = (if scored <? conceded then 1 else 0).
Proof.
  rewrite !count_symbol_one. unfold result_symbol. rewrite Z.gtb_ltb.
  destruct (Z.ltb_spec conceded scored), (Z.ltb_spec scored conceded);
    try lia; split; reflexivity.
Qed.

Lemma team_share_counts streak_type team r m :
  played (team_share team r m)
  = played r + Z.of_nat (length (match_symbols streak_type team m)) /\
  (String.eqb streak_type "clean_sheet" = false ->
   wins (team_share team r m) = wins r + count_symbol "W" (match_symbols streak_type team m) /\
   losses (team_share team r m) = losses r + count_symbol "L" (match_symbols streak_type team m)).
Proof.
  unfold team_share, match_symbols.
  destruct (home_team_id m) as [home|], (away_team_id m) as [away|],
    (parse_score (score_or_empty m)) as [[hg ag]|];
    try (split; [simpl; lia | intros _; split; unfold count_symbol; simpl; lia]).
  unfold side_share, side_symbol. split.
  - repeat case_decide; simpl; lia.
  - intros ->.
    destruct (result_symbol_counts hg ag) as [Hw1 Hl1],
      (result_symbol_counts ag hg) as [Hw2 Hl2].
    repeat case_decide; rewrite ?count_symbol_app, ?Hw1, ?Hl1, ?Hw2, ?Hl2;
      unfold count_symbol; simpl; lia.
Qed.

Lemma team_record_counts streak_type team matches : forall r,
  played (fold_left (team_share team) matches r)
  = played r + Z.of_nat (length (concat (match_symbols streak_type team <$> matches))) /\
  (String.eqb streak_type "clean_sheet" = false ->
   wins (fold_left (team_share team) matches r)
   = wins r + count_symbol "W" (concat (match_symbols streak_type team <$> matches)) /\
   losses (fold_left (team_share team) matches r)
   = losses r + count_symbol "L" (concat (match_symbols streak_type team <$> matches))).
Proof.
  induction matches as [|m rest IH]; intros r; csimpl.
  - split; [lia | intros _; unfold count_symbol; simpl; lia].
  - destruct (IH (team_share team r m)) as [Hp Hwl].
    destruct (team_share_counts streak_type team r m) as [Hp1 Hwl1].
    split; [rewrite Hp, Hp1, length_app; lia|].
    intros Htype. destruct (Hwl Htype) as [Hw Hl], (Hwl1 Htype) as [Hw1 Hl1].
    rewrite Hw, Hl, Hw1, Hl1, !count_symbol_app. lia.
Qed.

Lemma league_table_given competition season db log c s table status :
  league_table competition season db = (log, Ret (TableBody c s table, status)) ->
  given competition = Some c /\ given season = Some s.
Proof.
  unfold league_table.
  destruct (given competition) as [c0|], (given season) as [s0|]; try discriminate.
  intros [= _ H]. destruct (tally_matches _ _); simpl in H; [|discriminate].
  by injection H as <- <- _ _.
Qed.

(** X13.  The two reports agree.  For the same competition and season,
    every team with a streak row has a row in the league table, and its
    longest streak is at most its matches played; for the type [win] it
    is at most its wins, for the type [loss] at most its losses. *)
Theorem streaks_within_table competition season streak_type db
    log1 c s table status1 log2 type streaks_data status2 :
  league_table competition season db = (log1, Ret (TableBody c s table, status1)) ->
  streaks competition season streak_type db
  = (log2, Ret (StreaksBody type streaks_data, status2)) ->
  Forall (fun row =>
            exists r,
              r ∈ table /\ row_team_id r = streak_team_id row /\
              streak row <= row_played r /\
              (type = "win" -> streak row <= row_wins r) /\
              (type = "loss" -> streak row <= row_losses r))
         streaks_data.
Proof.
  intros Htable Hstreaks.
  destruct (league_table_given _ _ _ _ _ _ _ _ Htable) as [Hc Hs].
  apply league_table_inv in Htable as (standings & Hst & -> & _).
  apply streaks_inv in Hstreaks as (_ & team_results & Hrec & ->).
  assert (scope_query competition season = Scope (Some c) (Some s)) as Hq
    by (unfold scope_query; by rewrite Hc, Hs).
  rewrite Hq in Hrec.
  set (found := find_matches db (Scope (Some c) (Some s))) in *.
  pose proof (tally_matches_wf _ _ _ dd_wf_empty Hst) as Hwf.
  pose proof (record_matches_wf _ _ _ _ dd_wf_empty Hrec) as Hwf'.
  apply Forall_forall. intros row Hrow.
  unfold sort_by_key_reverse in Hrow. rewrite stable_sort_perm in Hrow.
  apply list_elem_of_fmap in Hrow as ([team results] & -> & Hitem).
  assert (team ∈ dd_keys team_results) as Hkey.
  { rewrite <- dd_items_keys by done. apply list_elem_of_fmap. by exists (team, results). }
  apply dd_items_lookup in Hitem.
  assert (results = concat (match_symbols type team <$> cursor_sort_date 1 found)) as ->.
  { pose proof (record_matches_results _ _ _ _ team Hrec) as Hres.
    unfold results_of in Hres. rewrite Hitem in Hres. simpl in Hres.
    unfold dd_empty in Hres; simpl in Hres. rewrite lookup_empty in Hres.
    exact Hres. }
  apply (record_matches_keys _ _ _ _ team dd_wf_empty Hrec) in Hkey
    as [Hnil|(m & Hm & Hp)]; [by apply elem_of_nil in Hnil|].
  apply (proj1 (sorted_matches_elem m found)) in Hm.
  assert (team ∈ dd_keys standings) as Hteam.
  { apply (tally_matches_keys _ _ _ team dd_wf_empty Hst). right. exists m. by split. }
  apply Hwf in Hteam as [r0 Hr0].
  exists (table_row (team, r0)). split; [|split; [done|]].
  { apply elem_of_sort_table, list_elem_of_fmap. exists (team, r0).
    split; [done | by apply dd_items_elem]. }
  assert (r0 = fold_left (team_share team) (cursor_sort_date 1 found) new_standing) as ->.
  { pose proof (tally_matches_row _ _ _ team Hst) as Hrow.
    unfold row_of in Hrow. rewrite Hr0 in Hrow. simpl in Hrow.
    unfold dd_empty in Hrow; simpl in Hrow. rewrite lookup_empty in Hrow. simpl in Hrow.
    rewrite Hrow. apply (team_record_perm team). symmetry.
    unfold cursor_sort_date; simpl. apply stable_sort_perm. }
  destruct (team_record_counts type team (cursor_sort_date 1 found) new_standing)
    as [Hplayed Hwl].
  simpl. rewrite Hplayed. simpl.
  set (sequence := concat (match_symbols type team <$> cursor_sort_date 1 found)) in *.
  split; [|split].
  - pose proof (longest_streak_count sequence (streak_target type)).
    pose proof (count_symbol_length (streak_target type) sequence). lia.
  - intros ->. destruct (Hwl eq_refl) as [-> _]. simpl.
    apply (longest_streak_count sequence "W").
  - intros ->. destruct (Hwl eq_refl) as [_ ->]. simpl.
    apply (longest_streak_count sequence "L").
Qed.

Lemma streaks_within_table_witness :
  Forall (fun row =>
            exists r,
              r ∈ sample_table /\ row_team_id r = streak_team_id row /\
              streak row <= row_played r /\
              ("win" = "win" -> streak row <= row_wins r) /\
              ("win" = "loss" -> streak row <= row_losses r))
         [ {| streak_team_id := "TeamX"; streak := 1 |};
           {| streak_team_id := "TeamY"; streak := 0 |} ].
Proof.
  apply (streaks_within_table (Some "PL") (Some "2024") (Some "win") sample_db
           [FindMatches (Scope (Some "PL") (Some "2024"))] "PL" "2024" sample_table 200
           [FindMatches (Scope (Some "PL") (Some "2024"))] "win" _ 200).
  - exact league_table_sample.
  - vm_compute. reflexivity.
Defined.

(** ** Pagination *)

Lemma int_arg_raises arg dflt e :
  int_arg arg dflt = Raise e ->
  e = ValueError /\ exists s, arg = Some s /\ int_of_str s = None.
Proof.
  destruct arg as [s|]; simpl; [|discriminate].
  destruct (int_of_str s) eqn:E; [discriminate|]. intros [= <-]. eauto.
Qed.

(** X14.  [parse_pagination] returns a page of at least 1 and a page
    size of at least 1 that does not exceed [PAGINATION_MAX] (when that
    is at least 1), so the number of documents to skip is never negative;
    without arguments it returns page 1 and the clamped default.  It
    raises only [ValueError], and only for an argument that [int]
    refuses. *)
Theorem parse_pagination_bounds PAGINATION_DEFAULT PAGINATION_MAX page page_size :
  (forall p ps,
      parse_pagination PAGINATION_DEFAULT PAGINATION_MAX page page_size = Ret (p, ps) ->
      1 <= p /\ 1 <= ps /\ (1 <= PAGINATION_MAX -> ps <= PAGINATION_MAX) /\
      0 <= (p - 1) * ps) /\
  (forall e,
      parse_pagination PAGINATION_DEFAULT PAGINATION_MAX page page_size = Raise e ->
      e = ValueError /\
      exists s, (page = Some s \/ page_size = Some s) /\ int_of_str s = None) /\
  parse_pagination PAGINATION_DEFAULT PAGINATION_MAX None None
  = Ret (1, Z.max 1 (Z.min PAGINATION_DEFAULT PAGINATION_MAX)).
Proof.
  unfold parse_pagination. split; [|split; [|reflexivity]].
  - intros p ps.
    destruct (int_arg page 1) as [p0|e1]; simpl; [|discriminate].
    destruct (int_arg page_size PAGINATION_DEFAULT) as [ps0|e2]; simpl; [|discriminate].
    intros [= <- <-]. nia.
  - intros e.
    destruct (int_arg page 1) as [p0|e1] eqn:E1; simpl.
    + destruct (int_arg page_size PAGINATION_DEFAULT) as [ps0|e2] eqn:E2; simpl;
        [discriminate|].
      intros [= <-]. apply int_arg_raises in E2 as (-> & s & -> & Hs). eauto.
    + intros [= <-]. apply int_arg_raises in E1 as (-> & s & -> & Hs). eauto.
Qed.

Lemma parse_pagination_bounds_witness :
  1 <= 1 /\ 1 <= 50 /\ (1 <= 50 -> 50 <= 50) /\ 0 <= (1 - 1) * 50.
Proof.
  destruct (parse_pagination_bounds 20 50 (Some "-3") (Some "1000")) as (H & _ & _).
  apply (H 1 50). reflexivity.
Defined.

Lemma total_pages_of_bounds page_size total :
  1 <= page_size ->
  0 <= total ->
  (total_pages_of page_size total - 1) * page_size < total
  /\ total <= total_pages_of page_size total * page_size.
Proof.
  intros Hps Htotal. unfold total_pages_of.
  destruct (Z.eqb_spec page_size 0) as [->|_]; [lia|].
  pose proof (Z.div_mod (total + page_size - 1) page_size ltac:(lia)) as Hdiv.
  pose proof (Z.mod_pos_bound (total + page_size - 1) page_size ltac:(lia)) as Hmod.
  nia.
Qed.

(** X15.  For a page size of at least 1 and a total that is not
    negative, the number of pages in the envelope is the least number of
    pages that hold all items: the pages before the last do not hold
    them all, and none is needed for no item. *)
Theorem total_pages_ceiling data page page_size total :
  1 <= page_size ->
  0 <= total ->
  (env_total_pages (pagination_envelope data page page_size total) - 1) * page_size < total
  /\ total <= env_total_pages (pagination_envelope data page page_size total) * page_size.
Proof.
  intros Hps Htotal. simpl. unfold total_pages_of.
  destruct (Z.eqb_spec page_size 0) as [->|_]; [lia|].
  pose proof (Z.div_mod (total + page_size - 1) page_size ltac:(lia)) as Hdiv.
  pose proof (Z.mod_pos_bound (total + page_size - 1) page_size ltac:(lia)) as Hmod.
  nia.
Qed.

Lemma total_pages_ceiling_witness :
  (env_total_pages (pagination_envelope [] 1 20 41) - 1) * 20 < 41 /\
  41 <= env_total_pages (pagination_envelope [] 1 20 41) * 20.
Proof. apply (total_pages_ceiling [] 1 20 41); lia. Defined.

Lemma page_items_window {A : Type} first_batch page page_size (docs : list A) :
  1 <= page -> 1 <= page_size < INT64_BOUND -> (page - 1) * page_size < INT64_BOUND ->
  page_items first_batch page page_size docs
  = Ret (take (Z.to_nat page_size) (drop (Z.to_nat ((page - 1) * page_size)) docs)).
Proof.
  intros Hp Hps Hskip. unfold page_items, cursor_skip, cursor_limit.
  destruct (Z.ltb_spec ((page - 1) * page_size) 0) as [Hneg|_]; [nia|].
  destruct (Z.leb_spec INT64_BOUND ((page - 1) * page_size)) as [Hbig|_]; [lia|]. simpl.
  destruct (Z.leb_spec INT64_BOUND (Z.abs page_size)) as [Hbig|_]; [lia|].
  destruct (Z.eqb_spec page_size 0) as [->|_]; [lia|].
  by destruct (Z.ltb_spec 0 page_size) as [_|Hneg]; [|lia].
Qed.

Lemma page_items_overflow {A : Type} first_batch page page_size (docs : list A) :
  1 <= page -> 1 <= page_size -> INT64_BOUND <= (page - 1) * page_size ->
  page_items first_batch page page_size docs = Raise OverflowError.
Proof.
  intros Hp Hps Hskip. unfold page_items, cursor_skip.
  destruct (Z.ltb_spec ((page - 1) * page_size) 0) as [Hneg|_]; [nia|].
  by destruct (Z.leb_spec INT64_BOUND ((page - 1) * page_size)) as [_|Hsmall]; [|lia].
Qed.

Lemma total_pages_step page_size len :
  1 <= page_size -> 1 <= len ->
  total_pages_of page_size len = 1 + total_pages_of page_size (Z.max 0 (len - page_size)).
Proof.
  intros Hps Hlen. unfold total_pages_of.
  destruct (Z.eqb_spec page_size 0) as [->|_]; [lia|].
  destruct (Z.le_gt_cases page_size len) as [Hge|Hlt].
  - rewrite Z.max_r by lia.
    replace (len + page_size - 1) with (len - page_size + page_size - 1 + 1 * page_size)
      by lia.
    rewrite Z.div_add by lia. lia.
  - rewrite Z.max_l by lia.
    replace (len + page_size - 1) with (len - 1 + 1 * page_size) by lia.
    rewrite Z.div_add, !Z.div_small by lia. lia.
Qed.

Lemma windows_cover {A : Type} (k : nat) (n : nat) : forall (docs : list A),
  (1 <= k)%nat ->
  Z.to_nat (total_pages_of (Z.of_nat k) (Z.of_nat (length docs))) = n ->
  concat ((fun i => take k (drop (i * k) docs)) <$> seq 0 n) = docs.
Proof.
  induction n as [|n IH]; intros docs Hk Hn.
  - destruct docs as [|x docs]; [done|]. exfalso.
    rewrite total_pages_step in Hn by (simpl length; lia).
    assert (0 <= total_pages_of (Z.of_nat k)
                   (Z.max 0 (Z.of_nat (length (x :: docs)) - Z.of_nat k))).
    { unfold total_pages_of. destruct (Z.of_nat k =? 0); [lia|].
      apply Z.div_pos; lia. }
    lia.
  - destruct docs as [|x docs].
    + exfalso. unfold total_pages_of in Hn. simpl in Hn.
      destruct (Z.eqb_spec (Z.of_nat k) 0) as [?|_]; [lia|].
      rewrite Z.div_small in Hn by lia. discriminate.
    + rewrite total_pages_step in Hn by (simpl length; lia).
      assert (0 <= total_pages_of (Z.of_nat k)
                     (Z.max 0 (Z.of_nat (length (x :: docs)) - Z.of_nat k))) as Hpos.
      { unfold total_pages_of. destruct (Z.of_nat k =? 0); [lia|].
        apply Z.div_pos; lia. }
      assert (concat ((fun i => take k (drop (i * k) (drop k (x :: docs)))) <$> seq 0 n)
              = drop k (x :: docs)) as Hrest.
      { apply IH; [done|]. rewrite length_drop.
        replace (Z.of_nat (length (x :: docs) - k))
          with (Z.max 0 (Z.of_nat (length (x :: docs)) - Z.of_nat k)) by lia.
        lia. }
      transitivity (take k (x :: docs) ++ drop k (x :: docs)); [|apply take_drop].
      rewrite <- Hrest.
      cbn [seq]. rewrite fmap_cons. cbn [concat]. rewrite Nat.mul_0_l.
      unfold drop at 1. f_equal.
      rewrite <- seq_shift, <- list_fmap_compose. f_equal.
      apply list_fmap_ext. intros _ i _. unfold compose.
      by rewrite drop_drop.
Qed.

(** X16.  The pages of a list handler cover its result exactly once.
    Let [docs] be the sorted result that the query of each of these
    requests finds, and the page size be from 1 to 2^63 - 1.  A page from
    1 on is cut without an error as long as the documents to skip,
    [(page - 1) * page_size], stay below 2^63, and it holds at most
    [page_size] documents; for a page further on the driver raises
    [OverflowError], as [parse_pagination] puts no upper bound on the
    page.  A page beyond the envelope's [total_pages] is empty, and for a
    result of fewer than 2^63 documents the pages 1 to [total_pages] put
    end to end are the whole result. *)
Theorem pages_cover {A : Type} (first_batch : list A -> nat) (docs : list A) page_size :
  1 <= page_size < INT64_BOUND ->
  (forall page, 1 <= page -> (page - 1) * page_size < INT64_BOUND ->
     exists items,
       page_items first_batch page page_size docs = Ret items /\
       Z.of_nat (length items) <= page_size /\
       (total_pages_of page_size (Z.of_nat (length docs)) < page -> items = [])) /\
  (forall page, 1 <= page -> INT64_BOUND <= (page - 1) * page_size ->
     page_items first_batch page page_size docs = Raise OverflowError) /\
  (Z.of_nat (length docs) < INT64_BOUND ->
   concat ((fun page => page_or_empty first_batch page page_size docs)
             <$> seqZ 1 (total_pages_of page_size (Z.of_nat (length docs))))
   = docs).
Proof.
  intros Hps.
  pose proof (total_pages_of_bounds page_size (Z.of_nat (length docs)) ltac:(lia)
                ltac:(lia)) as [Hfloor Hceil].
  split; [|split].
  - intros page Hp Hskip. eexists. split; [by apply page_items_window|]. split.
    + rewrite length_take. lia.
    + intros Hbeyond. apply length_zero_iff_nil.
      rewrite length_take, length_drop.
      assert (Z.of_nat (length docs) <= (page - 1) * page_size) by nia.
      lia.
  - intros page Hp Hskip. apply page_items_overflow; [done | lia | done].
  - intros Hlen. unfold seqZ. rewrite <- list_fmap_compose.
    rewrite <- (windows_cover (Z.to_nat page_size)
                  (Z.to_nat (total_pages_of page_size (Z.of_nat (length docs)))) docs)
      at 2; [|lia|by rewrite Z2Nat.id by lia].
    f_equal. apply list_fmap_ext. intros j i Hi. simpl.
    apply lookup_seq in Hi as [-> Hi]. simpl in Hi.
    unfold page_or_empty. rewrite page_items_window by nia.
    do 2 f_equal. nia.
Qed.

Lemma pages_cover_witness :
  concat ((fun page => page_or_empty (fun _ => 0%nat) page 2 ["a"; "b"; "c"; "d"; "e"])
            <$> seqZ 1 (total_pages_of 2 (Z.of_nat (length ["a"; "b"; "c"; "d"; "e"]))))
  = ["a"; "b"; "c"; "d"; "e"] /\
  page_items (fun _ => 0%nat) (INT64_BOUND + 1) 2 ["a"; "b"; "c"; "d"; "e"]
  = Raise OverflowError.
Proof.
  destruct (pages_cover (fun _ => 0%nat) ["a"; "b"; "c"; "d"; "e"] 2) as (_ & Hfar & Hcover);
    [by vm_compute|].
  split; [apply Hcover; by vm_compute | apply Hfar; by vm_compute].
Defined.

(** ** The sort argument *)

Lemma sort_item_field field : sort_item (sort_field field) = field.
Proof.
  unfold sort_field, sort_item. destruct field as [|c rest]; [done|].
  destruct (Ascii.eqb_spec c "-") as [->|Hne]; simpl; done.
Qed.

Lemma sort_field_direction field :
  (sort_field field).2 = 1 \/ (sort_field field).2 = -1.
Proof.
  unfold sort_field. destruct field as [|c rest]; [by left|].
  destruct (Ascii.eqb c "-"); [by right | by left].
Qed.

(** X17.  [parse_sort] never returns an empty specification: it holds
    one field per comma-separated item of the argument (of the default
    when there is none), each with direction 1 or -1, and it loses
    nothing: writing each field back with its "-" and joining with commas
    gives the argument again. *)
Theorem parse_sort_lossless default sort :
  length (parse_sort default sort)
  = S (count_char "," (match sort with Some s => s | None => default end)) /\
  Forall (fun field => field.2 = 1 \/ field.2 = -1) (parse_sort default sort) /\
  py_join "," (sort_item <$> parse_sort default sort)
  = match sort with Some s => s | None => default end.
Proof.
  unfold parse_sort. split; [|split].
  - by rewrite length_fmap, py_split_length.
  - apply Forall_fmap, Forall_forall. intros field _. apply sort_field_direction.
  - rewrite <- list_fmap_compose.
    rewrite (list_fmap_ext (sort_item ∘ sort_field) id) by (intros; apply sort_item_field).
    by rewrite list_fmap_id, py_join_split.
Qed.

Example parse_sort_sample :
  parse_sort "_id" (Some "-date,name,") = [("date", -1); ("name", 1); ("", 1)] /\
  parse_sort "-date" None = [("date", -1)].
Proof. split; reflexivity. Qed.

(** ** The two teams of a head-to-head request *)

Lemma find_matches_versus db a b :
  find_matches db (Versus a b) = find_matches db (Versus b a).
Proof.
  unfold find_matches. apply List.filter_ext. intros m. simpl. apply orb_comm.
Qed.

(** X18.  [head_to_head] does not tell its two teams apart: exchanging
    [team_a] and [team_b] gives the same outcome, whether an exception,
    the validation error or the list of matches, but for the two names
    the answer echoes and the order of the two branches of the query. *)
Theorem head_to_head_mirror team_a team_b limit db :
  head_to_head team_b team_a limit db = mirror (head_to_head team_a team_b limit db).
Proof.
  unfold head_to_head.
  destruct (limit_arg limit) as [n|e]; [|reflexivity].
  destruct (given team_a) as [a|], (given team_b) as [b|]; try reflexivity.
  rewrite (find_matches_versus db b a).
  by destruct (cursor_limit _ _ _).
Qed.

Example head_to_head_mirror_sample :
  head_to_head (Some "TeamY") (Some "TeamX") (Some "1") malformed_db
  = ([FindMatches (Versus "TeamY" "TeamX")],
     Ret (H2HBody "TeamY" "TeamX" [serialize_match malformed_match], 200)).
Proof. vm_compute. reflexivity. Qed.

(** ** The order of the matches found *)

Lemma filter_perm {A : Type} (f : A -> bool) (l l' : list A) :
  l ≡ₚ l' -> List.filter f l ≡ₚ List.filter f l'.
Proof.
  induction 1 as [|x l l' _ IH|x y l|l l' l'' _ IH1 _ IH2]; simpl.
  - done.
  - destruct (f x); [by constructor | done].
  - destruct (f x), (f y); try done. apply perm_swap.
  - by etrans.
Qed.

Lemma find_matches_perm db db' q :
  matches_coll db ≡ₚ matches_coll db' -> find_matches db q ≡ₚ find_matches db' q.
Proof. apply filter_perm. Qed.

Lemma tally_matches_scores matches : forall standings standings',
  tally_matches matches standings = Ret standings' ->
  Forall (fun m => returns (parse_score (score_or_empty m))) matches.
Proof.
  induction matches as [|m rest IH]; intros standings standings'; simpl; [done|].
  destruct (parse_score (score_or_empty m)) as [[hg ag]|e] eqn:E; simpl; [|discriminate].
  intros H. constructor; [by eexists|].
  destruct (home_team_id m), (away_team_id m); eauto.
Qed.

Lemma league_table_ids competition season db log c s table status :
  league_table competition season db = (log, Ret (TableBody c s table, status)) ->
  NoDup (row_team_id <$> table) /\
  forall team,
    team ∈ row_team_id <$> table
    <-> exists m, m ∈ find_matches db (Scope (Some c) (Some s)) /\ plays_in team m.
Proof.
  intros H. apply league_table_inv in H as (standings & Hst & -> & _).
  pose proof (tally_matches_wf _ _ _ dd_wf_empty Hst) as Hwf.
  rewrite table_team_ids by done. split; [apply Hwf|].
  intros team. rewrite table_team_ids by done.
  rewrite (tally_matches_keys _ _ _ team dd_wf_empty Hst).
  split; [intros [H|H]; [by apply elem_of_nil in H | done] | by right].
Qed.

(** The rows of one table are rows of the other. *)
Lemma league_table_rows_perm competition season db db' log log' c s table table'
    status status' r :
  matches_coll db ≡ₚ matches_coll db' ->
  league_table competition season db = (log, Ret (TableBody c s table, status)) ->
  league_table competition season db' = (log', Ret (TableBody c s table', status')) ->
  r ∈ table -> r ∈ table'.
Proof.
  intros Hperm H H' Hr.
  pose proof (find_matches_perm db db' (Scope (Some c) (Some s)) Hperm) as Hfound.
  pose proof (league_table_row _ _ _ _ _ _ _ _ _ H Hr) as Hrow.
  destruct (league_table_ids _ _ _ _ _ _ _ _ H) as [_ Hteams].
  destruct (league_table_ids _ _ _ _ _ _ _ _ H') as [_ Hteams'].
  assert (row_team_id r ∈ row_team_id <$> table') as Hin.
  { apply Hteams'.
    destruct (proj1 (Hteams (row_team_id r))) as (m & Hm & Hplays).
    - apply list_elem_of_fmap. by exists r.
    - exists m. split; [by rewrite <- Hfound | done]. }
  apply list_elem_of_fmap in Hin as (r' & Hid & Hr').
  pose proof (league_table_row _ _ _ _ _ _ _ _ _ H' Hr') as Hrow'.
  rewrite <- Hid, <- (team_record_perm _ _ _ Hfound), <- Hrow in Hrow'.
  by subst r'.
Qed.

Lemma ranked_both_tied x y :
  ranked_before x y -> ranked_before y x -> fully_tied x y = true.
Proof.
  unfold ranked_before, fully_tied. rewrite !andb_true_iff, !Z.eqb_eq. lia.
Qed.

(** A ranking without full ties is the only one of its rows. *)
Lemma ranked_unique (l : list TableRow) : forall l',
  StronglySorted ranked_before l ->
  StronglySorted ranked_before l' ->
  l ≡ₚ l' ->
  (forall x y, x ∈ l -> y ∈ l -> fully_tied x y = true -> x = y) ->
  l = l'.
Proof.
  induction l as [|x l IH]; intros l' Hl Hl' Hperm Hties.
  - by apply Permutation_nil in Hperm.
  - destruct l' as [|y l']; [by apply Permutation_sym, Permutation_nil in Hperm|].
    apply StronglySorted_inv in Hl as [Hl Hx].
    apply StronglySorted_inv in Hl' as [Hl' Hy].
    rewrite Forall_forall in Hx, Hy.
    assert (x = y) as <-.
    { assert (x ∈ y :: l') as Hxin by (rewrite <- Hperm; by left).
      assert (y ∈ x :: l) as Hyin by (rewrite Hperm; by left).
      apply elem_of_cons in Hxin as [?|Hxin]; [done|].
      apply elem_of_cons in Hyin as [?|Hyin]; [done|].
      apply Hties; [by left | by right |].
      apply ranked_both_tied; auto. }
    f_equal. apply IH; [done | done | by apply Permutation_cons_inv in Hperm |].
    intros a b Ha Hb. apply Hties; by right.
Qed.

(** X19.  The standings do not depend on the order in which the store
    hands out the matches.  For two stores whose match collections hold
    the same documents in another order, [league_table] returns a table
    for the one when it does for the other, after the same read and with
    the same rows; the two tables are equal when no two rows tie on
    points, goal difference and goals scored. *)
Theorem league_table_any_order competition season db db' log c s table status :
  matches_coll db ≡ₚ matches_coll db' ->
  league_table competition season db = (log, Ret (TableBody c s table, status)) ->
  exists table',
    league_table competition season db' = (log, Ret (TableBody c s table', status)) /\
    table' ≡ₚ table /\
    ((forall x y, x ∈ table -> y ∈ table -> fully_tied x y = true -> x = y) ->
     table' = table).
Proof.
  intros Hperm H.
  pose proof (find_matches_perm db db' (Scope (Some c) (Some s)) Hperm) as Hfound.
  destruct (league_table_given _ _ _ _ _ _ _ _ H) as [Hc Hs].
  destruct (league_table_inv _ _ _ _ _ _ _ _ H) as (standings & Hst & Htable & -> & ->).
  destruct (league_table_returns competition season db' c s Hc Hs) as [table' H'].
  { rewrite <- Hfound. by eapply tally_matches_scores. }
  exists table'. split; [done|].
  assert (table' ≡ₚ table) as Hrows.
  { destruct (league_table_ids _ _ _ _ _ _ _ _ H) as [Hnd _].
    destruct (league_table_ids _ _ _ _ _ _ _ _ H') as [Hnd' _].
    apply NoDup_Permutation; [by eapply NoDup_fmap_1 | by eapply NoDup_fmap_1 |].
    intros r. split.
    - by apply (league_table_rows_perm _ _ _ _ _ _ _ _ _ _ _ _ r (symmetry Hperm) H' H).
    - by apply (league_table_rows_perm _ _ _ _ _ _ _ _ _ _ _ _ r Hperm H H'). }
  split; [done|]. intros Hties. symmetry.
  destruct (league_table_inv _ _ _ _ _ _ _ _ H') as (standings' & _ & Htable' & _).
  apply ranked_unique; [| | done | done].
  - rewrite Htable. apply sort_table_sorted.
  - rewrite Htable'. apply sort_table_sorted.
Qed.

Lemma league_table_any_order_witness :
  league_table (Some "PL") (Some "2024") reordered_db
  = ([FindMatches (Scope (Some "PL") (Some "2024"))],
     Ret (TableBody "PL" "2024" sample_table, 200)).
Proof.
  destruct (league_table_any_order (Some "PL") (Some "2024") sample_db reordered_db
              [FindMatches (Scope (Some "PL") (Some "2024"))] "PL" "2024" sample_table 200)
    as (table' & H' & _ & Hsame).
  - apply perm_swap.
  - exact league_table_sample.
  - rewrite H'. rewrite Hsame; [reflexivity|].
    intros x y Hx Hy. vm_compute in Hx, Hy.
    repeat (apply elem_of_cons in Hx as [->|Hx]);
      repeat (apply elem_of_cons in Hy as [->|Hy]);
      try (by apply elem_of_nil in Hx); try (by apply elem_of_nil in Hy);
      first [reflexivity | discriminate].
Defined.
